(** * LoadingScreen: the completion-orchestration state machine

    A shallow embedding of [src/components/LoadingScreen.tsx].  The
    component is a React function component; what it does over time is
    decided by its hooks: three pieces of state ([tier], [videoReady],
    [progress]), one ref ([completedRef]), five effects with their cleanup
    functions, and the handlers attached to the [<video>] element.

    The embedding is a state machine.  A [State] holds the browser
    environment the component talks to (clock, viewport width, the timer
    and animation-frame queues, the console), the hook state, the cleanup
    closures of the effects that are currently installed, and the calls
    received by the host's [onComplete].  An [Event] is something the
    browser or the host delivers: time passing, an animation frame with
    its timestamp, a resize, a media event, the host passing a new
    [onComplete], the host unmounting the component.

    Modelling choices.
    - JavaScript numbers are rationals ([Q]): the clock, the frame
      timestamps and the progress fraction.  [window.innerWidth] is an
      integer ([Z]).
    - The clock never runs backwards.  [performance.now()] and the timers
      read it; a timer runs at its deadline, however far the clock is
      advanced in one event.  The timestamp the browser hands to a frame
      callback is an input of its own: nothing ties it to the clock.
    - A commit is instantaneous: when a dependency of an effect changes,
      the cleanups and the effects that depend on it run at the time of
      the event, cleanups first.
    - [handleEnd] is memoised on [onComplete]: it changes when the host
      passes another function, and only then.  Whatever function the host
      passed last is the one [handleEnd] calls; the session records the
      calls, not the function.
    - A state update with the value already held does not re-render, and
      a state update on an unmounted component does nothing. *)

From Stdlib Require Import ZArith QArith Qminmax Lqa Lia.
From Stdlib Require Import List Bool String Sorted.
Import ListNotations.
Local Open Scope Q_scope.

(** ** Data *)

Inductive DeviceTier : Type := mobile | tablet | desktop.

Definition tier_eqb (a b : DeviceTier) : bool :=
  match a, b with
  | mobile, mobile | tablet, tablet | desktop, desktop => true
  | _, _ => false
  end.

(** [getDeviceTier], as a function of [window.innerWidth]. *)
Definition getDeviceTier (w : Z) : DeviceTier :=
  if (w <? 768)%Z then mobile
  else if (w <? 1024)%Z then tablet
  else desktop.

(** A pending [setTimeout].  Every timer of this component is created with
    [handleEnd] as its callback, so a timer carries no callback field. *)
Record Timer : Type := { tm_id : nat; tm_due : Q }.

(** A pending [requestAnimationFrame(tick)].  [tick] closes over the
    constants [start] and [duration] of the effect run that created it;
    [rf_owner] names that run, whose variable [raf] the callback assigns. *)
Record RafReq : Type :=
  { rf_id : nat; rf_owner : nat; rf_start : Q; rf_duration : Q }.

(** The closure environment the cleanup of the progress effect reads: the
    run it belongs to and the current value of its [let raf]. *)
Record AnimEnv : Type := { an_owner : nat; an_raf : nat }.

Record State : Type := {
  (* browser *)
  now : Q;
  innerWidth : Z;
  timers : list Timer;
  rafs : list RafReq;
  nextId : nat;
  console : list string;
  (* hooks *)
  mounted : bool;
  tier : DeviceTier;
  videoReady : bool;
  progress : Q;
  completedRef : bool;
  (* installed effects: what each cleanup closure holds *)
  resizeListener : bool;
  mobileTimer : option nat;
  tabletTimer : option nat;
  desktopCap : option nat;
  anim : option AnimEnv;
  (* host: the times at which [onComplete] was called *)
  onCompleteCalls : list Q;
  (* instrumentation, read by no definition: the times at which
     [handleEnd] was entered *)
  handleEndCalls : list Q
}.

(** Field updates. *)

Definition set_now (v : Q) (s : State) : State :=
  let '(Build_State _ iw tms rfs nid con mnt tr vrd prg cpl lsn mtm ttm dcp
                    anm occ hec) := s in
  Build_State v iw tms rfs nid con mnt tr vrd prg cpl lsn mtm ttm dcp anm occ
    hec.

Definition set_innerWidth (v : Z) (s : State) : State :=
  let '(Build_State nw _ tms rfs nid con mnt tr vrd prg cpl lsn mtm ttm dcp
                    anm occ hec) := s in
  Build_State nw v tms rfs nid con mnt tr vrd prg cpl lsn mtm ttm dcp anm occ
    hec.

Definition set_timers (v : list Timer) (s : State) : State :=
  let '(Build_State nw iw _ rfs nid con mnt tr vrd prg cpl lsn mtm ttm dcp
                    anm occ hec) := s in
  Build_State nw iw v rfs nid con mnt tr vrd prg cpl lsn mtm ttm dcp anm occ
    hec.

Definition set_rafs (v : list RafReq) (s : State) : State :=
  let '(Build_State nw iw tms _ nid con mnt tr vrd prg cpl lsn mtm ttm dcp
                    anm occ hec) := s in
  Build_State nw iw tms v nid con mnt tr vrd prg cpl lsn mtm ttm dcp anm occ
    hec.

Definition set_nextId (v : nat) (s : State) : State :=
  let '(Build_State nw iw tms rfs _ con mnt tr vrd prg cpl lsn mtm ttm dcp
                    anm occ hec) := s in
  Build_State nw iw tms rfs v con mnt tr vrd prg cpl lsn mtm ttm dcp anm occ
    hec.

Definition set_console (v : list string) (s : State) : State :=
  let '(Build_State nw iw tms rfs nid _ mnt tr vrd prg cpl lsn mtm ttm dcp
                    anm occ hec) := s in
  Build_State nw iw tms rfs nid v mnt tr vrd prg cpl lsn mtm ttm dcp anm occ
    hec.

Definition set_mounted (v : bool) (s : State) : State :=
  let '(Build_State nw iw tms rfs nid con _ tr vrd prg cpl lsn mtm ttm dcp
                    anm occ hec) := s in
  Build_State nw iw tms rfs nid con v tr vrd prg cpl lsn mtm ttm dcp anm occ
    hec.

Definition set_tier (v : DeviceTier) (s : State) : State :=
  let '(Build_State nw iw tms rfs nid con mnt _ vrd prg cpl lsn mtm ttm dcp
                    anm occ hec) := s in
  Build_State nw iw tms rfs nid con mnt v vrd prg cpl lsn mtm ttm dcp anm occ
    hec.

Definition set_videoReady (v : bool) (s : State) : State :=
  let '(Build_State nw iw tms rfs nid con mnt tr _ prg cpl lsn mtm ttm dcp
                    anm occ hec) := s in
  Build_State nw iw tms rfs nid con mnt tr v prg cpl lsn mtm ttm dcp anm occ
    hec.

Definition set_progress (v : Q) (s : State) : State :=
  let '(Build_State nw iw tms rfs nid con mnt tr vrd _ cpl lsn mtm ttm dcp
                    anm occ hec) := s in
  Build_State nw iw tms rfs nid con mnt tr vrd v cpl lsn mtm ttm dcp anm occ
    hec.

Definition set_completedRef (v : bool) (s : State) : State :=
  let '(Build_State nw iw tms rfs nid con mnt tr vrd prg _ lsn mtm ttm dcp
                    anm occ hec) := s in
  Build_State nw iw tms rfs nid con mnt tr vrd prg v lsn mtm ttm dcp anm occ
    hec.

Definition set_resizeListener (v : bool) (s : State) : State :=
  let '(Build_State nw iw tms rfs nid con mnt tr vrd prg cpl _ mtm ttm dcp
                    anm occ hec) := s in
  Build_State nw iw tms rfs nid con mnt tr vrd prg cpl v mtm ttm dcp anm occ
    hec.

Definition set_mobileTimer (v : option nat) (s : State) : State :=
  let '(Build_State nw iw tms rfs nid con mnt tr vrd prg cpl lsn _ ttm dcp
                    anm occ hec) := s in
  Build_State nw iw tms rfs nid con mnt tr vrd prg cpl lsn v ttm dcp anm occ
    hec.

Definition set_tabletTimer (v : option nat) (s : State) : State :=
  let '(Build_State nw iw tms rfs nid con mnt tr vrd prg cpl lsn mtm _ dcp
                    anm occ hec) := s in
  Build_State nw iw tms rfs nid con mnt tr vrd prg cpl lsn mtm v dcp anm occ
    hec.

Definition set_desktopCap (v : option nat) (s : State) : State :=
  let '(Build_State nw iw tms rfs nid con mnt tr vrd prg cpl lsn mtm ttm _
                    anm occ hec) := s in
  Build_State nw iw tms rfs nid con mnt tr vrd prg cpl lsn mtm ttm v anm occ
    hec.

Definition set_anim (v : option AnimEnv) (s : State) : State :=
  let '(Build_State nw iw tms rfs nid con mnt tr vrd prg cpl lsn mtm ttm dcp
                    _ occ hec) := s in
  Build_State nw iw tms rfs nid con mnt tr vrd prg cpl lsn mtm ttm dcp v occ
    hec.

Definition set_onCompleteCalls (v : list Q) (s : State) : State :=
  let '(Build_State nw iw tms rfs nid con mnt tr vrd prg cpl lsn mtm ttm dcp
                    anm _ hec) := s in
  Build_State nw iw tms rfs nid con mnt tr vrd prg cpl lsn mtm ttm dcp anm v
    hec.

Definition set_handleEndCalls (v : list Q) (s : State) : State :=
  let '(Build_State nw iw tms rfs nid con mnt tr vrd prg cpl lsn mtm ttm dcp
                    anm occ _) := s in
  Build_State nw iw tms rfs nid con mnt tr vrd prg cpl lsn mtm ttm dcp anm
    occ v.

(** ** Browser primitives *)

Definition setTimeout (delay : Q) (s : State) : nat * State :=
  let id := nextId s in
  (id, set_nextId (S id)
         (set_timers (timers s ++ [{| tm_id := id; tm_due := now s + delay |}]) s)).

Definition clearTimeout (id : nat) (s : State) : State :=
  set_timers (filter (fun t => negb (Nat.eqb (tm_id t) id)) (timers s)) s.

Definition requestAnimationFrame (owner : nat) (start duration : Q)
    (s : State) : nat * State :=
  let id := nextId s in
  (id, set_nextId (S id)
         (set_rafs (rafs s ++ [{| rf_id := id; rf_owner := owner;
                                  rf_start := start; rf_duration := duration |}]) s)).

Definition cancelAnimationFrame (id : nat) (s : State) : State :=
  set_rafs (filter (fun r => negb (Nat.eqb (rf_id r) id)) (rafs s)) s.

Definition console_error (msg : string) (s : State) : State :=
  set_console (msg :: console s) s.

(** ** The component *)

(** The host's callback: the session records when it was called. *)
Definition onComplete (s : State) : State :=
  set_onCompleteCalls (now s :: onCompleteCalls s) s.

(** [handleEnd]: the completion entry point, guarded by [completedRef]. *)
Definition handleEnd (s : State) : State :=
  let s := set_handleEndCalls (now s :: handleEndCalls s) s in
  if completedRef s then s
  else onComplete (set_completedRef true s).

Definition setProgress (p : Q) (s : State) : State :=
  if mounted s then set_progress p s else s.

Definition setVideoReady (b : bool) (s : State) : State :=
  if mounted s then set_videoReady b s else s.

(** The effect on [[]]: the resize listener and its removal. *)
Definition resizeEffect (s : State) : State := set_resizeListener true s.
Definition resizeCleanup (s : State) : State := set_resizeListener false s.

(** The three timer effects.  Each returns a cleanup only when its branch
    is taken; the slot records the timer that cleanup would clear. *)
Definition mobileEffect (s : State) : State :=
  if negb (tier_eqb (tier s) mobile) then set_mobileTimer None s
  else let (t, s1) := setTimeout 2000 s in set_mobileTimer (Some t) s1.

Definition mobileCleanup (s : State) : State :=
  match mobileTimer s with
  | Some t => set_mobileTimer None (clearTimeout t s)
  | None => s
  end.

Definition tabletEffect (s : State) : State :=
  if negb (tier_eqb (tier s) tablet) then set_tabletTimer None s
  else let (t, s1) := setTimeout 2500 s in set_tabletTimer (Some t) s1.

Definition tabletCleanup (s : State) : State :=
  match tabletTimer s with
  | Some t => set_tabletTimer None (clearTimeout t s)
  | None => s
  end.

Definition desktopEffect (s : State) : State :=
  if negb (tier_eqb (tier s) desktop) then set_desktopCap None s
  else let (cap, s1) := setTimeout 8000 s in set_desktopCap (Some cap) s1.

Definition desktopCleanup (s : State) : State :=
  match desktopCap s with
  | Some cap => set_desktopCap None (clearTimeout cap s)
  | None => s
  end.

(** The progress animation.  [progressDuration] is the expression
    [tier === 'mobile' ? 1800 : 2200]. *)
Definition progressDuration (t : DeviceTier) : Q :=
  if tier_eqb t mobile then 1800 else 2200.

Definition progressEffect (s : State) : State :=
  if tier_eqb (tier s) desktop then set_anim None s
  else
    let duration := progressDuration (tier s) in
    let start := now s in
    let owner := nextId s in
    let (raf, s1) :=
      requestAnimationFrame owner start duration (set_nextId (S owner) s) in
    set_anim (Some {| an_owner := owner; an_raf := raf |}) s1.

Definition progressCleanup (s : State) : State :=
  match anim s with
  | Some env => set_anim None (cancelAnimationFrame (an_raf env) s)
  | None => s
  end.

(** The value [tick] passes to [setProgress]. *)
Definition pct (r : RafReq) (nowts : Q) : Q :=
  Qmin ((nowts - rf_start r) / rf_duration r) 1.

(** [raf = ...] inside [tick]: assigns the variable of the run that owns
    the callback, which is the installed one or a discarded one. *)
Definition assign_raf (owner id : nat) (s : State) : State :=
  match anim s with
  | Some env =>
      if Nat.eqb (an_owner env) owner
      then set_anim (Some {| an_owner := owner; an_raf := id |}) s
      else s
  | None => s
  end.

Definition tick (r : RafReq) (nowts : Q) (s : State) : State :=
  let p := pct r nowts in
  let s1 := setProgress p s in
  if negb (Qle_bool 1 p) then
    let (id, s2) :=
      requestAnimationFrame (rf_owner r) (rf_start r) (rf_duration r) s1 in
    assign_raf (rf_owner r) id s2
  else s1.

(** A commit after [tier] changed: the cleanups of the four effects that
    depend on [tier] run, then the effects run again. *)
Definition tierCleanups (s : State) : State :=
  progressCleanup (desktopCleanup (tabletCleanup (mobileCleanup s))).

Definition tierEffects (s : State) : State :=
  progressEffect (desktopEffect (tabletEffect (mobileEffect s))).

(** A commit after [onComplete], and so [handleEnd], changed: the three
    timer effects, whose dependencies are [[tier, handleEnd]], are cleaned
    up and run again; the progress effect, on [[tier]], is not. *)
Definition handleEndCleanups (s : State) : State :=
  desktopCleanup (tabletCleanup (mobileCleanup s)).

Definition handleEndEffects (s : State) : State :=
  desktopEffect (tabletEffect (mobileEffect s)).

Definition setOnComplete (s : State) : State :=
  if mounted s then handleEndEffects (handleEndCleanups s) else s.

Definition setTier (t : DeviceTier) (s : State) : State :=
  if negb (mounted s) then s
  else if tier_eqb (tier s) t then s
  else tierEffects (set_tier t (tierCleanups s)).

Definition onResize (s : State) : State :=
  setTier (getDeviceTier (innerWidth s)) s.

(** The [<video>] element is rendered for the desktop tier only. *)
Definition videoRendered (s : State) : bool :=
  mounted s && tier_eqb (tier s) desktop.

(** The buffering indicator: [tier === 'desktop' && !videoReady]. *)
Definition bufferingShown (s : State) : bool :=
  videoRendered s && negb (videoReady s).

Definition onEnded (s : State) : State := handleEnd s.

Definition onCanPlayThrough (s : State) : State := setVideoReady true s.

Definition onError (s : State) : State :=
  handleEnd (console_error "Loading video failed" s).

(** ** The session *)

Definition mount (w : Z) (t0 : Q) : State :=
  tierEffects (resizeEffect
    {| now := t0; innerWidth := w; timers := []; rafs := []; nextId := O;
       console := [];
       mounted := true; tier := getDeviceTier w; videoReady := false;
       progress := 0; completedRef := false;
       resizeListener := false; mobileTimer := None; tabletTimer := None;
       desktopCap := None; anim := None;
       onCompleteCalls := []; handleEndCalls := [] |}).

Definition unmount (s : State) : State :=
  if mounted s
  then set_mounted false (tierCleanups (resizeCleanup s))
  else s.

Fixpoint insert_by_due (t : Timer) (l : list Timer) : list Timer :=
  match l with
  | [] => [t]
  | u :: l' =>
      if Qle_bool (tm_due t) (tm_due u) then t :: l
      else u :: insert_by_due t l'
  end.

Definition sort_by_due (l : list Timer) : list Timer :=
  fold_right insert_by_due [] l.

(** A timer runs [handleEnd] at its deadline. *)
Definition runTimer (s : State) (t : Timer) : State :=
  handleEnd (set_now (tm_due t) s).

Definition is_due (target : Q) (t : Timer) : bool :=
  Qle_bool (tm_due t) target.

(** The clock advances by [dt] milliseconds; the timers due by then run,
    earliest first. *)
Definition advance (dt : Q) (s : State) : State :=
  if Qle_bool 0 dt then
    let target := now s + dt in
    let due := filter (is_due target) (timers s) in
    let rest := filter (fun t => negb (is_due target t)) (timers s) in
    set_now target (fold_left runTimer (sort_by_due due) (set_timers rest s))
  else s.

(** One animation frame: the callbacks queued before the frame run with
    the timestamp [ts] the browser hands them; what they request waits
    for the next frame. *)
Definition frame (ts : Q) (s : State) : State :=
  fold_left (fun st r => tick r ts st) (rafs s) (set_rafs [] s).

Inductive Event : Type :=
| Advance (dt : Q)
| Frame (ts : Q)
| Resize (w : Z)
| MediaEnded
| MediaCanPlayThrough
| MediaError
| Unmount
| NewOnComplete.

Definition step (s : State) (e : Event) : State :=
  match e with
  | Advance dt => advance dt s
  | Frame ts => frame ts s
  | Resize w =>
      let s1 := set_innerWidth w s in
      if resizeListener s1 then onResize s1 else s1
  | MediaEnded => if videoRendered s then onEnded s else s
  | MediaCanPlayThrough => if videoRendered s then onCanPlayThrough s else s
  | MediaError => if videoRendered s then onError s else s
  | Unmount => unmount s
  | NewOnComplete => setOnComplete s
  end.

Definition run (s : State) (es : list Event) : State := fold_left step es s.


(** ** Vocabulary of the statements *)

(** The delay a tier's timer effect passes to [setTimeout]. *)
Definition delay_of (t : DeviceTier) : Q :=
  match t with
  | mobile => 2000
  | tablet => 2500
  | desktop => 8000
  end.

(** An event that leaves the branch of tier [tr] running with its timer
    as it is: not a resize into another tier, not an unmount, not a new
    [onComplete]. *)
Definition continues (tr : DeviceTier) (e : Event) : bool :=
  match e with
  | Resize w => tier_eqb (getDeviceTier w) tr
  | Unmount | NewOnComplete => false
  | _ => true
  end.

(** The time that passes during a list of events. *)
Fixpoint elapsed (es : list Event) : Q :=
  match es with
  | [] => 0
  | Advance dt :: es' => (if Qle_bool 0 dt then dt else 0) + elapsed es'
  | _ :: es' => elapsed es'
  end.

(** [stamps_ok lo es]: the frames of [es] are stamped in order, none
    earlier than the one before it, the first not earlier than [lo]. *)
Fixpoint stamps_ok (lo : Q) (es : list Event) : bool :=
  match es with
  | [] => true
  | Frame ts :: es' => Qle_bool lo ts && stamps_ok ts es'
  | _ :: es' => stamps_ok lo es'
  end.

(** The two media events that ask for completion. *)
Definition media_trigger (e : Event) : bool :=
  match e with
  | MediaEnded | MediaError => true
  | _ => false
  end.

(** The values handed to [setProgress] while an event is handled. *)
Definition produced (s : State) (e : Event) : list Q :=
  match e with
  | Frame ts => map (fun r => pct r ts) (rafs s)
  | _ => []
  end.

Fixpoint produced_run (s : State) (es : list Event) : list Q :=
  match es with
  | [] => []
  | e :: es' => produced s e ++ produced_run (step s e) es'
  end.

(** The states of a session. *)
Inductive Reachable : State -> Prop :=
| reach_mount w t0 : Reachable (mount w t0)
| reach_step s e : Reachable s -> Reachable (step s e).

(** [Activated tr s0]: [s0] is the state in which the branch of tier [tr]
    has just been started, at mount or by a resize out of another tier. *)
Inductive Activated (tr : DeviceTier) : State -> Prop :=
| act_mount w t0 :
    getDeviceTier w = tr -> Activated tr (mount w t0)
| act_switch s w :
    Reachable s -> mounted s = true -> tier s <> tr ->
    getDeviceTier w = tr -> Activated tr (step s (Resize w)).

(** The completion latch agrees with the calls the host has received. *)
Definition latch_ok (s : State) : Prop :=
  match onCompleteCalls s with
  | [] => completedRef s = false
  | [_] => completedRef s = true
  | _ => False
  end.

(** What an animation frame leaves as it was. *)
Definition same_timer_side (s s' : State) : Prop :=
  now s' = now s /\ timers s' = timers s /\
  mounted s' = mounted s /\ tier s' = tier s /\
  resizeListener s' = resizeListener s /\
  mobileTimer s' = mobileTimer s /\ tabletTimer s' = tabletTimer s /\
  desktopCap s' = desktopCap s /\
  completedRef s' = completedRef s /\
  onCompleteCalls s' = onCompleteCalls s /\
  handleEndCalls s' = handleEndCalls s /\
  videoReady s' = videoReady s /\ console s' = console s /\
  innerWidth s' = innerWidth s.

(** What the passing of time leaves as it was. *)
Definition same_anim_side (s s' : State) : Prop :=
  rafs s' = rafs s /\ anim s' = anim s /\ progress s' = progress s /\
  nextId s' = nextId s /\
  mounted s' = mounted s /\ tier s' = tier s /\
  resizeListener s' = resizeListener s /\
  mobileTimer s' = mobileTimer s /\ tabletTimer s' = tabletTimer s /\
  desktopCap s' = desktopCap s /\
  videoReady s' = videoReady s /\ console s' = console s /\
  innerWidth s' = innerWidth s.

(** What an event may do to the latch: nothing, or close it with one more
    call of the host. *)
Definition latch_step (s s' : State) : Prop :=
  (completedRef s' = completedRef s /\ onCompleteCalls s' = onCompleteCalls s)
  \/ (completedRef s = false /\ completedRef s' = true /\
      exists t, onCompleteCalls s' = t :: onCompleteCalls s).

(** The timers held by the cleanups of the three timer effects, and what
    they hold while the branch of tier [tr] runs with timer [id]. *)
Definition slots (s : State) : option nat * option nat * option nat :=
  (mobileTimer s, tabletTimer s, desktopCap s).

Definition slots_for (tr : DeviceTier) (id : nat) :
    option nat * option nat * option nat :=
  match tr with
  | mobile => (Some id, None, None)
  | tablet => (None, Some id, None)
  | desktop => (None, None, Some id)
  end.

(** The shape of a state in which the branch of tier [tr], started at
    time [t0], is running.  Timers: the tier's effect holds one timer,
    which is pending with the deadline [t0 + delay_of tr] until the clock
    reaches it and gone afterwards; no other timer exists. *)
Definition TimerShape (tr : DeviceTier) (t0 : Q) (s : State) : Prop :=
  mounted s = true /\ resizeListener s = true /\ tier s = tr /\
  exists id, slots s = slots_for tr id /\ (id < nextId s)%nat /\
    ((timers s = [{| tm_id := id; tm_due := t0 + delay_of tr |}] /\
      now s < t0 + delay_of tr)
     \/ (timers s = [] /\ t0 + delay_of tr <= now s)).

(** Animation: on desktop there is none; on mobile and tablet the progress
    effect is installed and either its one frame request is pending, with
    the start [t0] and the tier's duration, or the animation has reached 1
    and requests nothing; [progress] is at most 1. *)
Definition AnimShape (tr : DeviceTier) (t0 : Q) (s : State) : Prop :=
  mounted s = true /\ resizeListener s = true /\ tier s = tr /\
  progress s <= 1 /\
  match tr with
  | desktop => anim s = None /\ rafs s = []
  | _ =>
      exists env, anim s = Some env /\
        (rafs s = [{| rf_id := an_raf env; rf_owner := an_owner env;
                      rf_start := t0; rf_duration := progressDuration tr |}]
         \/ (rafs s = [] /\ progress s == 1))
  end.

Definition Branch (tr : DeviceTier) (t0 : Q) (s : State) : Prop :=
  TimerShape tr t0 s /\ AnimShape tr t0 s.

(** After a new [onComplete] the timer is younger than the animation:
    [t0] is the start of the timer, [t1] the start of the animation. *)
Definition Running (tr : DeviceTier) (t0 t1 : Q) (s : State) : Prop :=
  TimerShape tr t0 s /\ AnimShape tr t1 s.

(** The completion logs of a state, and what they become when a timer
    enters [handleEnd] at time [due]. *)
Definition logs (s : State) : list Q * list Q * bool :=
  (handleEndCalls s, onCompleteCalls s, completedRef s).

Definition fired_logs (due : Q) (s : State) : list Q * list Q * bool :=
  (due :: handleEndCalls s,
   if completedRef s then onCompleteCalls s else due :: onCompleteCalls s,
   true).

(** The state right after a resize out of tier [tr] into tier [tr']. *)
Definition switched (w : Z) (tr' : DeviceTier) (s s' : State) : Prop :=
  mounted s' = true /\ resizeListener s' = true /\
  tier s' = tr' /\ now s' = now s /\ innerWidth s' = w /\
  progress s' = progress s /\ logs s' = logs s /\
  videoReady s' = videoReady s /\ console s' = console s /\
  timers s' = [{| tm_id := nextId s; tm_due := now s + delay_of tr' |}] /\
  slots s' = slots_for tr' (nextId s) /\
  match tr' with
  | desktop => nextId s' = S (nextId s) /\ anim s' = None /\ rafs s' = []
  | _ =>
      nextId s' = S (S (S (nextId s))) /\
      anim s' = Some {| an_owner := S (nextId s);
                        an_raf := S (S (nextId s)) |} /\
      rafs s' = [{| rf_id := S (S (nextId s)); rf_owner := S (nextId s);
                    rf_start := now s;
                    rf_duration := progressDuration tr' |}]
  end.

(** An event other than the ended and the error event of the video. *)
Definition no_trigger (e : Event) : bool := negb (media_trigger e).

(** [timer_fires_exactly D s0 es]: the events [es], delivered from [s0]
    on, move the clock by the time they take; the timer started in [s0]
    calls [handleEnd] once, at [now s0 + D], when they take [D] or more,
    and not at all when they take less; with the latch open in [s0], that
    call is the host's one notification. *)
Definition timer_fires_exactly (D : Q) (s0 : State) (es : list Event) : Prop :=
  now (run s0 es) == now s0 + elapsed es /\
  (elapsed es < D ->
   handleEndCalls (run s0 es) = handleEndCalls s0 /\
   onCompleteCalls (run s0 es) = onCompleteCalls s0) /\
  (D <= elapsed es ->
   handleEndCalls (run s0 es) = (now s0 + D) :: handleEndCalls s0 /\
   (completedRef s0 = false -> onCompleteCalls (run s0 es) = [now s0 + D])).

(** The fraction the animation of tier [tr], started at [t0], shows at
    time [t]. *)
Definition fraction (tr : DeviceTier) (t0 t : Q) : Q :=
  Qmin ((t - t0) / progressDuration tr) 1.

(** What the host and the screen can see of a state. *)
Definition host_view (s : State) :=
  (onCompleteCalls s, completedRef s, mounted s, tier s, progress s,
   videoReady s, bufferingShown s).

(** ** The screen, the end of a session, and two event lists *)

(** What the component renders: the progress bar of the mobile block and
    of the tablet block, with the width in percent, when the block is
    rendered; whether the video is rendered; whether the buffering
    indicator is. *)
Record View : Type := {
  mobileBar : option Q;
  tabletBar : option Q;
  video : bool;
  bufferingIndicator : bool
}.

(** An unmounted component renders nothing. *)
Definition render (s : State) : option View :=
  if mounted s then
    Some
      {| mobileBar :=
           if tier_eqb (tier s) mobile then Some (progress s * 100) else None;
         tabletBar :=
           if tier_eqb (tier s) tablet then Some (progress s * 100) else None;
         video := tier_eqb (tier s) desktop;
         bufferingIndicator :=
           tier_eqb (tier s) desktop && negb (videoReady s) |}
  else None.

(** The state of a session after the host has unmounted the component. *)
Definition Dead (s : State) : Prop :=
  mounted s = false /\ resizeListener s = false /\
  timers s = [] /\ rafs s = [].

(** What the component holds, as opposed to the browser's clock and
    viewport. *)
Definition held (s : State) :=
  (logs s, tier s, progress s, videoReady s, console s, timers s, rafs s).

(** [stall n]: [n] rounds of waiting one second and turning the device. *)
Fixpoint stall (n : nat) : list Event :=
  match n with
  | O => []
  | S k => [Advance 1000; Resize 900; Advance 1000; Resize 500] ++ stall k
  end.

Definition is_error (e : Event) : bool :=
  match e with
  | MediaError => true
  | _ => false
  end.

(** ** Elementary facts *)

Lemma tier_eqb_eq a b : tier_eqb a b = true <-> a = b.
Proof. destruct a, b; cbn; split; congruence. Qed.

Lemma tier_eqb_refl a : tier_eqb a a = true.
Proof. now destruct a. Qed.

Section ListFacts.

Context {A B : Type}.

Lemma fold_left_preserves (P : A -> Prop) (f : A -> B -> A) (l : list B) :
  (forall a b, P a -> P (f a b)) -> forall a, P a -> P (fold_left f l a).
Proof.
  intros Hf. induction l as [|b l IH]; cbn; auto.
Qed.

Lemma last_cons (l : list A) : forall a d, last (a :: l) d = last l a.
Proof.
  induction l as [|b l IH]; intros a d; [reflexivity|].
  change (last (a :: b :: l) d) with (last (b :: l) d).
  now rewrite (IH b d), (IH b a).
Qed.

Lemma last_in (l : list A) : forall d, l <> [] -> In (last l d) l.
Proof.
  induction l as [|a l IH]; intros d Hl; [congruence|].
  destruct l as [|b l]; [left; reflexivity|].
  right. apply IH. discriminate.
Qed.

End ListFacts.

(** ** Scenarios

    Four sessions, run on the model. *)

(** Width 500: the mobile branch; the host is called once, at 2000 ms. *)
Example scenario_compact :
  tier (mount 500 0) = mobile /\
  onCompleteCalls (run (mount 500 0) [Advance 1999]) = [] /\
  onCompleteCalls (run (mount 500 0) [Advance 2000]) = [2000] /\
  onCompleteCalls (run (mount 500 0) [Advance 2000; Advance 5000]) = [2000].
Proof. repeat split. Qed.

(** Width 900: the tablet branch; nothing at 2499 ms, one call at 2500. *)
Example scenario_medium :
  tier (mount 900 0) = tablet /\
  onCompleteCalls (run (mount 900 0) [Advance 2499]) = [] /\
  onCompleteCalls (run (mount 900 0) [Advance 2499; Advance 1]) = [2500].
Proof. repeat split. Qed.

(** Width 1200, the video ends at 3000 ms: one call, at 3000 ms; the cap
    timer, still pending, finds the latch closed at 8000 ms. *)
Example scenario_large_ended :
  let s := run (mount 1200 0) [Advance 3000; MediaEnded] in
  tier s = desktop /\ onCompleteCalls s = [3000] /\
  timers s = [{| tm_id := 0; tm_due := 8000 |}] /\
  onCompleteCalls (run s [Advance 5000]) = [3000] /\
  handleEndCalls (run s [Advance 5000]) = [8000; 3000].
Proof. repeat split. Qed.

(** Width 1200, no media event: one call, at 8000 ms. *)
Example scenario_large_silent :
  onCompleteCalls (run (mount 1200 0) [Advance 7999]) = [] /\
  onCompleteCalls (run (mount 1200 0) [Advance 7999; Advance 1]) = [8000].
Proof. repeat split. Qed.

(** The progress bar of the mobile branch: a quarter at 450 ms, full at
    1800 ms, where the animation stops asking for frames; the host is not
    called before 2000 ms. *)
Example scenario_progress :
  let s1 := run (mount 500 0) [Advance 450; Frame 450] in
  let s2 := run s1 [Advance 1350; Frame 1800] in
  progress s1 == 1 # 4 /\ rafs s1 <> [] /\
  progress s2 == 1 /\ rafs s2 = [] /\ onCompleteCalls s2 = [] /\
  onCompleteCalls (run s2 [Advance 200]) = [2000].
Proof. repeat split; discriminate. Qed.

(** ** Proof automation

    The model is unfolded by name, leaving arithmetic on [Q] folded. *)

Declare Reduction model :=
  cbv beta iota zeta delta
    [set_now set_innerWidth set_timers set_rafs set_nextId set_console
     set_mounted set_tier set_videoReady set_progress set_completedRef
     set_resizeListener set_mobileTimer set_tabletTimer set_desktopCap
     set_anim set_onCompleteCalls set_handleEndCalls
     now innerWidth timers rafs nextId console mounted tier videoReady
     progress completedRef resizeListener mobileTimer tabletTimer desktopCap
     anim onCompleteCalls handleEndCalls
     tm_id tm_due rf_id rf_owner rf_start rf_duration an_owner an_raf
     setTimeout clearTimeout requestAnimationFrame cancelAnimationFrame
     console_error onComplete handleEnd setProgress setVideoReady
     resizeEffect resizeCleanup mobileEffect mobileCleanup tabletEffect
     tabletCleanup desktopEffect desktopCleanup progressEffect
     progressCleanup assign_raf tick tierCleanups tierEffects setTier
     handleEndCleanups handleEndEffects setOnComplete
     onResize videoRendered bufferingShown onEnded onCanPlayThrough onError
     mount unmount runTimer advance frame step run
     delay_of progressDuration pct is_due sort_by_due insert_by_due
     tier_eqb negb andb orb fst snd app filter fold_left fold_right map].

Ltac red_model :=
  match goal with
  | |- ?G => let G' := eval model in G in change G'
  end.

Ltac red_model_in H :=
  let T := type of H in
  let T' := eval model in T in
  change T' in H.

Ltac case_step :=
  match goal with
  | |- context [match ?x with _ => _ end] =>
      is_var x;
      lazymatch type of x with
      | bool => idtac | option _ => idtac | DeviceTier => idtac
      end;
      destruct x
  | |- context [Qle_bool ?a ?b] => destruct (Qle_bool a b) eqn:?
  | |- context [Nat.eqb ?a ?b] => destruct (Nat.eqb a b) eqn:?
  end; red_model.
Ltac cases := repeat case_step.

Ltac destruct_state s :=
  destruct s as [nw iw tms rfs nid con mnt tie vrd prg cpl lsn mtm ttm dcp
                 anm occ hec].

(** ** Frames and the passing of time *)

Lemma same_timer_side_trans s1 s2 s3 :
  same_timer_side s1 s2 -> same_timer_side s2 s3 -> same_timer_side s1 s3.
Proof. unfold same_timer_side; intuition congruence. Qed.

Lemma same_anim_side_refl s : same_anim_side s s.
Proof. repeat split. Qed.

Lemma same_anim_side_trans s1 s2 s3 :
  same_anim_side s1 s2 -> same_anim_side s2 s3 -> same_anim_side s1 s3.
Proof. unfold same_anim_side; intuition congruence. Qed.

Lemma tick_timer_side r ts s : same_timer_side s (tick r ts s).
Proof.
  destruct_state s. destruct mnt, anm; red_model; cases; repeat split.
Qed.

Lemma frame_timer_side ts s : same_timer_side s (frame ts s).
Proof.
  unfold frame.
  apply (fold_left_preserves (same_timer_side s)).
  - intros a r Ha. eapply same_timer_side_trans; [exact Ha|].
    apply tick_timer_side.
  - destruct_state s. repeat split.
Qed.

Lemma runTimer_anim_side s t : same_anim_side s (runTimer s t).
Proof.
  destruct_state s. destruct cpl; repeat split.
Qed.

Lemma advance_anim_side dt s : same_anim_side s (advance dt s).
Proof.
  unfold advance. destruct (Qle_bool 0 dt); [|apply same_anim_side_refl].
  set (l := sort_by_due _). clearbody l.
  set (s1 := set_timers _ s).
  assert (H : same_anim_side s s1) by (destruct_state s; repeat split).
  clearbody s1. revert s1 H.
  induction l as [|t l IH]; intros s1 H; cbn [fold_left].
  - destruct_state s1. exact H.
  - apply IH. eapply same_anim_side_trans; [exact H|].
    apply runTimer_anim_side.
Qed.

Lemma now_advance dt s : 0 <= dt -> now (advance dt s) = now s + dt.
Proof.
  intros H. unfold advance. apply Qle_bool_iff in H. rewrite H.
  now destruct (fold_left _ _ _).
Qed.

Lemma setTier_keeps t s :
  now (setTier t s) = now s /\
  completedRef (setTier t s) = completedRef s /\
  onCompleteCalls (setTier t s) = onCompleteCalls s /\
  handleEndCalls (setTier t s) = handleEndCalls s /\
  videoReady (setTier t s) = videoReady s /\
  progress (setTier t s) = progress s /\
  console (setTier t s) = console s /\
  mounted (setTier t s) = mounted s /\
  resizeListener (setTier t s) = resizeListener s /\
  innerWidth (setTier t s) = innerWidth s.
Proof.
  destruct_state s.
  destruct mnt; [|repeat split].
  destruct tie, t, mtm, ttm, dcp, anm; repeat split.
Qed.

Lemma setOnComplete_keeps s :
  now (setOnComplete s) = now s /\
  completedRef (setOnComplete s) = completedRef s /\
  onCompleteCalls (setOnComplete s) = onCompleteCalls s /\
  handleEndCalls (setOnComplete s) = handleEndCalls s /\
  videoReady (setOnComplete s) = videoReady s /\
  progress (setOnComplete s) = progress s /\
  console (setOnComplete s) = console s /\
  mounted (setOnComplete s) = mounted s /\
  resizeListener (setOnComplete s) = resizeListener s /\
  innerWidth (setOnComplete s) = innerWidth s /\
  tier (setOnComplete s) = tier s /\
  rafs (setOnComplete s) = rafs s /\
  anim (setOnComplete s) = anim s.
Proof.
  destruct_state s.
  destruct mnt; [|repeat split].
  destruct tie, mtm, ttm, dcp; repeat split.
Qed.

(** ** The latch *)

Lemma latch_step_refl s : latch_step s s.
Proof. left; auto. Qed.

Lemma latch_step_trans s1 s2 s3 :
  latch_step s1 s2 -> latch_step s2 s3 -> latch_step s1 s3.
Proof.
  intros [[A B]|[A [B [t C]]]] [[D E]|[D [F [u G]]]].
  - left; split; congruence.
  - right. repeat split; try congruence. exists u. congruence.
  - right. repeat split; try congruence. exists t. congruence.
  - congruence.
Qed.

Ltac solve_latch :=
  first [ left; split; reflexivity
        | right; split; [reflexivity|split; [reflexivity|eexists; reflexivity]] ].

Lemma runTimer_latch s t : latch_step s (runTimer s t).
Proof.
  destruct s as [nw iw tms rfs nid con mnt tie vrd prg [] lsn mtm ttm dcp
                 anm occ hec]; red_model.
  - solve_latch.
  - solve_latch.
Qed.

Lemma advance_latch dt s : latch_step s (advance dt s).
Proof.
  unfold advance. destruct (Qle_bool 0 dt); [|apply latch_step_refl].
  set (l := sort_by_due _). clearbody l.
  set (s1 := set_timers _ s).
  assert (H : latch_step s s1) by (destruct s; left; auto).
  clearbody s1. revert s1 H.
  induction l as [|t l IH]; intros s1 H; cbn [fold_left].
  - destruct s1; exact H.
  - apply IH. eapply latch_step_trans; [exact H|apply runTimer_latch].
Qed.

Lemma step_latch s e : latch_step s (step s e).
Proof.
  destruct e.
  - apply advance_latch.
  - destruct (frame_timer_side ts s) as (_ & _ & _ & _ & _ & _ & _ & _ & A & B & _).
    left. cbn [step]. split; assumption.
  - cbn [step]. unfold onResize. destruct (resizeListener _).
    + destruct (setTier_keeps (getDeviceTier (innerWidth (set_innerWidth w s)))
                  (set_innerWidth w s)) as (_ & A & B & _).
      left. rewrite A, B. now destruct_state s.
    + left. now destruct_state s.
  - destruct_state s. destruct mnt, tie, cpl; solve_latch.
  - destruct_state s. destruct mnt, tie; solve_latch.
  - destruct_state s. destruct mnt, tie, cpl; solve_latch.
  - destruct_state s. destruct mnt, mtm, ttm, dcp, anm; solve_latch.
  - destruct (setOnComplete_keeps s) as (_ & A & B & _).
    left. cbn [step]. split; assumption.
Qed.

(** ** The shape of a running branch

    [t0] is the time at which the branch of tier [tr] was started. *)

Ltac qbool :=
  repeat match goal with
         | H : Qle_bool _ _ = true |- _ => apply Qle_bool_iff in H
         | H : Qle_bool ?a ?b = false |- _ =>
             assert (b < a)
               by (apply Qnot_le_lt; rewrite <- Qle_bool_iff; congruence);
             clear H
         end.

Ltac red_hyps :=
  repeat match goal with
         | H : _ |- _ => progress red_model_in H
         end.

Lemma continues_resize tr w :
  continues tr (Resize w) = true -> getDeviceTier w = tr.
Proof. cbn. apply tier_eqb_eq. Qed.

Lemma now_step_le s e : now s <= now (step s e).
Proof.
  destruct e; cbn [step].
  - unfold advance. destruct (Qle_bool 0 dt) eqn:E; [|lra]. qbool.
    destruct (fold_left _ _ _); cbn. lra.
  - destruct (frame_timer_side ts s) as (-> & _). lra.
  - unfold onResize. destruct (resizeListener _).
    + destruct (setTier_keeps (getDeviceTier (innerWidth (set_innerWidth w s)))
                  (set_innerWidth w s)) as (-> & _).
      destruct_state s; cbn; lra.
    + destruct_state s; cbn; lra.
  - destruct_state s. destruct mnt, tie, cpl; cbn; lra.
  - destruct_state s. destruct mnt, tie; cbn; lra.
  - destruct_state s. destruct mnt, tie, cpl; cbn; lra.
  - destruct_state s. destruct mnt, mtm, ttm, dcp, anm; cbn; lra.
  - destruct (setOnComplete_keeps s) as (-> & _). lra.
Qed.

(** The clock moves with [Advance] and with nothing else. *)
Lemma now_step s e :
  now (step s e) =
  match e with
  | Advance dt => if Qle_bool 0 dt then now s + dt else now s
  | _ => now s
  end.
Proof.
  destruct e; cbn [step].
  - unfold advance. destruct (Qle_bool 0 dt); [|reflexivity].
    now destruct (fold_left _ _ _).
  - now destruct (frame_timer_side ts s) as (-> & _).
  - unfold onResize. destruct (resizeListener _).
    + destruct (setTier_keeps (getDeviceTier (innerWidth (set_innerWidth w s)))
                  (set_innerWidth w s)) as (-> & _).
      now destruct_state s.
    + now destruct_state s.
  - destruct_state s. destruct mnt, tie, cpl; reflexivity.
  - destruct_state s. destruct mnt, tie; reflexivity.
  - destruct_state s. destruct mnt, tie, cpl; reflexivity.
  - destruct_state s. destruct mnt, mtm, ttm, dcp, anm; reflexivity.
  - now destruct (setOnComplete_keeps s) as (-> & _).
Qed.

Lemma now_run_elapsed es : forall s, now (run s es) == now s + elapsed es.
Proof.
  induction es as [|e es IH]; intros s.
  - cbn. ring.
  - change (run s (e :: es)) with (run (step s e) es).
    rewrite IH, now_step.
    destruct e; cbn [elapsed]; try reflexivity.
    destruct (Qle_bool 0 dt); ring.
Qed.

(** Resizing within the tier re-renders nothing. *)
Lemma resize_same_tier s w :
  mounted s = true -> getDeviceTier w = tier s ->
  step s (Resize w) = set_innerWidth w s.
Proof.
  intros Hm Hw. destruct_state s. cbn in Hm, Hw. subst mnt.
  cbn [step set_innerWidth resizeListener]. destruct lsn; [|reflexivity].
  unfold onResize, setTier. cbn [innerWidth mounted negb tier].
  now rewrite Hw, tier_eqb_refl.
Qed.

Lemma nextId_tick_le r ts s : (nextId s <= nextId (tick r ts s))%nat.
Proof.
  destruct_state s. destruct mnt, anm; red_model; cases; lia.
Qed.

Lemma nextId_frame_le ts s : (nextId s <= nextId (frame ts s))%nat.
Proof.
  unfold frame.
  apply (fold_left_preserves (fun a => (nextId s <= nextId a)%nat)).
  - intros a r Ha. pose proof (nextId_tick_le r ts a). lia.
  - destruct_state s. cbn. lia.
Qed.

Ltac timer_shape_done :=
  unfold TimerShape, slots, slots_for; red_model;
  repeat (split; [reflexivity|]);
  eexists; split; [reflexivity|]; (split; [assumption || lia|]);
  first [ left; split; [reflexivity|lra]
        | right; split; [reflexivity|lra] ].

Lemma timer_step tr t0 s e :
  TimerShape tr t0 s -> continues tr e = true -> TimerShape tr t0 (step s e).
Proof.
  intros (Hm & Hl & Ht & id & Hid & Hfr & Htm) Hk.
  destruct e; try discriminate.
  - (* Advance *)
    destruct_state s; unfold slots in Hid; red_hyps; subst mnt lsn tie.
    destruct tr; injection Hid as -> -> ->;
      destruct Htm as [[-> Hlt]|[-> Hle]]; destruct cpl;
      red_model; red_hyps; cases; qbool; timer_shape_done.
  - (* Frame *)
    destruct (frame_timer_side ts s) as (A1 & A2 & A3 & A4 & A5 & A6 & A7 & A8 & _).
    pose proof (nextId_frame_le ts s) as Hn.
    unfold TimerShape, slots. cbn [step].
    rewrite A1, A2, A3, A4, A5, A6, A7, A8.
    repeat (split; [assumption|]). exists id.
    split; [assumption|]. split; [lia|assumption].
  - (* Resize within the tier *)
    apply continues_resize in Hk.
    rewrite resize_same_tier by congruence.
    destruct_state s. unfold TimerShape, slots in *. red_hyps. red_model.
    repeat (split; [assumption|]). exists id. repeat (split; [assumption|]).
    assumption.
  - destruct_state s; unfold slots in Hid; red_hyps; subst mnt lsn tie.
    destruct tr; injection Hid as -> -> ->;
      destruct Htm as [[-> Hlt]|[-> Hle]]; destruct cpl;
      red_model; red_hyps; timer_shape_done.
  - destruct_state s; unfold slots in Hid; red_hyps; subst mnt lsn tie.
    destruct tr; injection Hid as -> -> ->;
      destruct Htm as [[-> Hlt]|[-> Hle]];
      red_model; red_hyps; timer_shape_done.
  - destruct_state s; unfold slots in Hid; red_hyps; subst mnt lsn tie.
    destruct tr; injection Hid as -> -> ->;
      destruct Htm as [[-> Hlt]|[-> Hle]]; destruct cpl;
      red_model; red_hyps; timer_shape_done.
Qed.

Lemma frac_bounds (a t0 d : Q) :
  0 < d -> t0 <= a -> 0 <= Qmin ((a - t0) / d) 1 <= 1.
Proof.
  intros Hd Ha. split.
  - apply Q.min_glb; [|lra].
    apply Qle_shift_div_l; [assumption|lra].
  - apply Q.le_min_r.
Qed.

Lemma frac_mono (a b t0 d : Q) :
  0 < d -> a <= b -> Qmin ((a - t0) / d) 1 <= Qmin ((b - t0) / d) 1.
Proof.
  intros Hd Hab. apply Q.min_le_compat_r.
  unfold Qdiv. apply Qmult_le_compat_r; [lra|].
  apply Qlt_le_weak, Qinv_lt_0_compat, Hd.
Qed.

Lemma frac_full (a t0 d : Q) :
  0 < d -> 1 <= Qmin ((a - t0) / d) 1 ->
  Qmin ((a - t0) / d) 1 == 1 /\ t0 + d <= a.
Proof.
  intros Hd H. split.
  - apply Qle_antisym; [apply Q.le_min_r|assumption].
  - assert (H1 : 1 <= (a - t0) / d)
      by (eapply Qle_trans; [exact H|apply Q.le_min_l]).
    apply (Qmult_le_compat_r _ _ d) in H1; [|lra].
    unfold Qdiv in H1. rewrite <- Qmult_assoc, (Qmult_comm (/ d)) in H1.
    rewrite Qmult_inv_r in H1 by lra. lra.
Qed.

Lemma progressDuration_pos tr : 0 < progressDuration tr.
Proof. destruct tr; reflexivity. Qed.

Lemma delay_of_pos tr : 0 < delay_of tr.
Proof. destruct tr; reflexivity. Qed.

Ltac anim_frame_case d :=
  rewrite Nat.eqb_refl;
  match goal with
  | |- context [Qle_bool 1 ?p] =>
      destruct (Qle_bool 1 p) eqn:E; qbool;
      unfold AnimShape; red_model;
      repeat (split; [reflexivity|]);
      (split; [apply Q.le_min_r|]);
      eexists; (split; [reflexivity|]);
      [ right; split; [reflexivity|];
        apply (frac_full _ _ d); [reflexivity|assumption]
      | left; reflexivity ]
  end.

Lemma anim_step tr t0 s e :
  AnimShape tr t0 s -> continues tr e = true -> AnimShape tr t0 (step s e).
Proof.
  intros (Hm & Hl & Ht & Hp & Ha) Hk.
  destruct e; try discriminate.
  - (* Advance *)
    destruct (advance_anim_side dt s)
      as (A1 & A2 & A3 & _ & A5 & A6 & A7 & _).
    unfold AnimShape. cbn [step] in *. rewrite A1, A2, A3, A5, A6, A7.
    repeat (split; [assumption|]). assumption.
  - (* Frame *)
    destruct_state s; red_hyps; subst mnt lsn tie.
    destruct tr.
    + destruct Ha as ([o i] & -> & [->|(-> & Hp1)]); red_hyps.
      * red_model. anim_frame_case 1800.
      * unfold AnimShape; red_model. repeat (split; [reflexivity || assumption|]).
        eexists; split; [reflexivity|]. right. repeat split; assumption.
    + destruct Ha as ([o i] & -> & [->|(-> & Hp1)]); red_hyps.
      * red_model. anim_frame_case 2200.
      * unfold AnimShape; red_model. repeat (split; [reflexivity || assumption|]).
        eexists; split; [reflexivity|]. right. repeat split; assumption.
    + destruct Ha as [-> ->]. unfold AnimShape; red_model.
      repeat (split; [reflexivity || assumption|]). split; reflexivity.
  - (* Resize within the tier *)
    apply continues_resize in Hk.
    rewrite resize_same_tier by congruence.
    destruct_state s. unfold AnimShape in *. red_hyps. red_model.
    repeat (split; [assumption|]). assumption.
  - destruct_state s; red_hyps; subst mnt lsn tie.
    destruct tr, cpl; unfold AnimShape; red_model;
      repeat (split; [reflexivity || assumption|]); assumption.
  - destruct_state s; red_hyps; subst mnt lsn tie.
    destruct tr; unfold AnimShape; red_model;
      repeat (split; [reflexivity || assumption|]); assumption.
  - destruct_state s; red_hyps; subst mnt lsn tie.
    destruct tr, cpl; unfold AnimShape; red_model;
      repeat (split; [reflexivity || assumption|]); assumption.
Qed.

Ltac log_done :=
  unfold logs, fired_logs; red_model;
  repeat split; intros; first [reflexivity | lra | exfalso; lra].

Lemma timer_log tr t0 s e :
  TimerShape tr t0 s -> continues tr e = true ->
  (tr = desktop -> media_trigger e = false) ->
  (now (step s e) < t0 + delay_of tr -> logs (step s e) = logs s) /\
  (t0 + delay_of tr <= now s -> logs (step s e) = logs s) /\
  (now s < t0 + delay_of tr -> t0 + delay_of tr <= now (step s e) ->
   logs (step s e) = fired_logs (t0 + delay_of tr) s).
Proof.
  intros (Hm & Hl & Ht & id & Hid & Hfr & Htm) Hk Hmedia.
  destruct e; try discriminate.
  - (* Advance *)
    destruct_state s; unfold slots in Hid; red_hyps; subst mnt lsn tie.
    destruct tr; injection Hid as -> -> ->;
      destruct Htm as [[-> Hlt]|[-> Hle]]; destruct cpl;
      red_model; red_hyps; cases; qbool; log_done.
  - (* Frame *)
    destruct (frame_timer_side ts s) as (A1 & _ & _ & _ & _ & _ & _ & _ & A2 & A3 & A4 & _).
    unfold logs. cbn [step]. rewrite A1, A2, A3, A4.
    repeat split; intros; first [reflexivity | exfalso; lra].
  - (* Resize within the tier *)
    apply continues_resize in Hk.
    rewrite resize_same_tier by congruence.
    destruct_state s. red_hyps. log_done.
  - destruct_state s; red_hyps; subst mnt lsn tie.
    destruct tr; try (now discriminate Hmedia); log_done.
  - destruct_state s; red_hyps; subst mnt lsn tie.
    destruct tr; log_done.
  - destruct_state s; red_hyps; subst mnt lsn tie.
    destruct tr; try (now discriminate Hmedia); log_done.
Qed.

(** ** Starting a branch *)

Lemma tier_mount w t0 : tier (mount w t0) = getDeviceTier w.
Proof.
  unfold mount. destruct (getDeviceTier w); reflexivity.
Qed.

Ltac anim_shape_fresh :=
  unfold AnimShape; red_model;
  repeat (split; [reflexivity || lra|]);
  first [ split; reflexivity
        | eexists; split; [reflexivity|left; reflexivity] ].

Lemma mount_branch w t0 : Branch (getDeviceTier w) t0 (mount w t0).
Proof.
  unfold mount. destruct (getDeviceTier w); split;
    first [timer_shape_done | anim_shape_fresh].
Qed.

Lemma switch_state tr t0 t1 s w :
  Running tr t0 t1 s -> getDeviceTier w <> tr ->
  switched w (getDeviceTier w) s (step s (Resize w)).
Proof.
  intros [(Hm & Hl & Ht & id & Hid & Hfr & Htm) (_ & _ & _ & Hp & Ha)] Hw.
  destruct_state s; unfold slots in Hid; red_hyps; subst mnt lsn tie.
  cbn [step set_innerWidth resizeListener]. unfold onResize.
  cbn [innerWidth].
  destruct tr, (getDeviceTier w); try congruence; clear Hw;
    injection Hid as -> -> ->.
  all: destruct Htm as [[-> Hlt]|[-> Hle]].
  all: try (destruct Ha as ([o i] & -> & [->|(-> & Hp1)]));
       try (destruct Ha as [-> ->]).
  all: red_model; rewrite ?Nat.eqb_refl; red_model.
  all: unfold switched, logs, slots, slots_for; red_model; repeat split.
Qed.

Lemma switch_branch tr t0 t1 s w :
  Running tr t0 t1 s -> getDeviceTier w <> tr ->
  Branch (getDeviceTier w) (now s) (step s (Resize w)).
Proof.
  intros Hb Hw. pose proof (switch_state tr t0 t1 s w Hb Hw) as Hs.
  destruct Hb as [_ (_ & _ & _ & Hp & _)].
  set (s' := step s (Resize w)) in *. clearbody s'.
  destruct Hs as (Hm & Hl & Ht & Hn & _ & Hpr & _ & _ & _ & Htm & Hsl & Ha).
  pose proof (delay_of_pos (getDeviceTier w)) as Hd.
  split.
  - unfold TimerShape. repeat (split; [assumption|]).
    exists (nextId s). split; [assumption|].
    split; [destruct (getDeviceTier w); intuition lia|].
    left. split; [assumption|]. rewrite Hn. lra.
  - unfold AnimShape. repeat (split; [assumption|]).
    split; [rewrite Hpr; assumption|].
    destruct (getDeviceTier w).
    + destruct Ha as (_ & Han & Hr). eexists; split; [exact Han|left; exact Hr].
    + destruct Ha as (_ & Han & Hr). eexists; split; [exact Han|left; exact Hr].
    + destruct Ha as (_ & Han & Hr). split; assumption.
Qed.

(** A new [onComplete]: the timer of the branch is cleared and set again,
    due the tier's delay after the change; nothing else moves. *)
Lemma callback_state tr t0 t1 s :
  Running tr t0 t1 s ->
  Running tr (now s) t1 (step s NewOnComplete) /\
  now (step s NewOnComplete) = now s /\
  logs (step s NewOnComplete) = logs s /\
  timers (step s NewOnComplete) =
    [{| tm_id := nextId s; tm_due := now s + delay_of tr |}].
Proof.
  intros [(Hm & Hl & Ht & id & Hid & Hfr & Htm) (_ & _ & _ & Hp & Ha)].
  destruct_state s; unfold slots in Hid; red_hyps; subst mnt lsn tie.
  destruct tr; injection Hid as -> -> ->;
    destruct Htm as [[-> Hlt]|[-> Hle]];
    red_model; rewrite ?Nat.eqb_refl; red_model;
    (split; [split; [timer_shape_done|]|unfold logs; repeat split]);
    unfold AnimShape; red_model;
    repeat (split; [reflexivity || assumption|]); assumption.
Qed.

Lemma mounted_step s e : mounted s = false -> mounted (step s e) = false.
Proof.
  intros Hm. destruct e; cbn [step].
  - destruct (advance_anim_side dt s) as (_ & _ & _ & _ & -> & _). exact Hm.
  - destruct (frame_timer_side ts s) as (_ & _ & -> & _). exact Hm.
  - unfold onResize. destruct (resizeListener _).
    + destruct (setTier_keeps (getDeviceTier (innerWidth (set_innerWidth w s)))
                  (set_innerWidth w s)) as (_ & _ & _ & _ & _ & _ & _ & -> & _).
      destruct_state s; exact Hm.
    + destruct_state s; exact Hm.
  - destruct_state s. cbn in Hm. subst mnt. reflexivity.
  - destruct_state s. cbn in Hm. subst mnt. reflexivity.
  - destruct_state s. cbn in Hm. subst mnt. reflexivity.
  - destruct_state s. cbn in Hm. subst mnt. reflexivity.
  - destruct_state s. cbn in Hm. subst mnt. reflexivity.
Qed.

Lemma branch_step tr t0 s e :
  Branch tr t0 s -> continues tr e = true -> Branch tr t0 (step s e).
Proof.
  intros [Ht Ha] Hk. split; [apply timer_step|apply anim_step]; assumption.
Qed.

Lemma branch_run tr t0 es : forall s,
  Branch tr t0 s -> forallb (continues tr) es = true ->
  Branch tr t0 (run s es).
Proof.
  induction es as [|e es IH]; intros s Hb Hk; [exact Hb|].
  cbn in Hk. apply andb_prop in Hk as [Hk1 Hk2].
  apply IH; [apply branch_step|]; assumption.
Qed.

Lemma branch_tier tr t0 s : Branch tr t0 s -> tier s = tr.
Proof. intros [(_ & _ & H & _) _]. exact H. Qed.

Lemma branch_mounted tr t0 s : Branch tr t0 s -> mounted s = true.
Proof. intros [(H & _) _]. exact H. Qed.

Lemma timer_run tr t0 es : forall s,
  TimerShape tr t0 s -> forallb (continues tr) es = true ->
  TimerShape tr t0 (run s es).
Proof.
  induction es as [|e es IH]; intros s Hb Hk; [exact Hb|].
  cbn in Hk. apply andb_prop in Hk as [Hk1 Hk2].
  apply IH; [apply timer_step|]; assumption.
Qed.

(** Every mounted state of a session is in the run of its tier's branch. *)
Lemma reachable_running s :
  Reachable s -> mounted s = true ->
  exists t0 t1, Running (tier s) t0 t1 s.
Proof.
  induction 1 as [w t0|s e Hr IH]; intros Hm.
  - exists t0, t0. rewrite tier_mount. apply mount_branch.
  - destruct (mounted s) eqn:Hms;
      [|now rewrite (mounted_step s e Hms) in Hm].
    destruct (IH eq_refl) as (t0 & t1 & Hb).
    destruct (continues (tier s) e) eqn:Hk.
    + exists t0, t1.
      assert (Hb' : Running (tier s) t0 t1 (step s e)).
      { destruct Hb as [Ht Ha].
        split; [apply timer_step|apply anim_step]; assumption. }
      destruct Hb' as [Ht' Ha'].
      assert (E : tier (step s e) = tier s) by apply Ht'.
      rewrite E. split; assumption.
    + destruct e; try discriminate.
      * exists (now s), (now s). cbn in Hk.
        assert (Hw : getDeviceTier w <> tier s)
          by (intros E; rewrite E, tier_eqb_refl in Hk; discriminate).
        pose proof (switch_branch _ _ _ _ _ Hb Hw) as Hb'.
        now rewrite (branch_tier _ _ _ Hb').
      * exfalso. revert Hm. destruct_state s. cbn in Hms. subst mnt.
        cbn. destruct mtm, ttm, dcp, anm; discriminate.
      * exists (now s), t1.
        destruct (callback_state _ _ _ _ Hb) as ([Ht' Ha'] & _).
        assert (E : tier (step s NewOnComplete) = tier s) by apply Ht'.
        rewrite E. split; assumption.
Qed.

Lemma reachable_run s es : Reachable s -> Reachable (run s es).
Proof.
  revert s. induction es as [|e es IH]; intros s Hr; [exact Hr|].
  apply IH. now constructor.
Qed.

Lemma activated_reachable tr s0 : Activated tr s0 -> Reachable s0.
Proof. destruct 1; repeat constructor; assumption. Qed.

Lemma now_mount w t0 : now (mount w t0) = t0.
Proof. unfold mount. destruct (getDeviceTier w); reflexivity. Qed.

Lemma activated_branch tr s0 : Activated tr s0 -> Branch tr (now s0) s0.
Proof.
  destruct 1 as [w t0 <-|s w Hr Hm Ht <-].
  - rewrite now_mount. apply mount_branch.
  - destruct (reachable_running s Hr Hm) as (t0 & t1 & Hb).
    assert (Hw : getDeviceTier w <> tier s) by congruence.
    destruct (switch_state _ _ _ _ _ Hb Hw) as (_ & _ & _ & -> & _).
    eapply switch_branch; eassumption.
Qed.

(** ** The completion logs of a run *)

Lemma fired_logs_ext due s s' :
  logs s' = logs s -> fired_logs due s' = fired_logs due s.
Proof.
  unfold logs, fired_logs. intros H. injection H as -> -> ->. reflexivity.
Qed.

Lemma run_log tr t0 es : forall s,
  TimerShape tr t0 s -> forallb (continues tr) es = true ->
  (tr = desktop -> forallb no_trigger es = true) ->
  now s <= now (run s es) /\
  (now (run s es) < t0 + delay_of tr -> logs (run s es) = logs s) /\
  (t0 + delay_of tr <= now s -> logs (run s es) = logs s) /\
  (now s < t0 + delay_of tr -> t0 + delay_of tr <= now (run s es) ->
   logs (run s es) = fired_logs (t0 + delay_of tr) s).
Proof.
  induction es as [|e es IH]; intros s Hs Hk Hm.
  - cbn. repeat split; intros; try reflexivity; lra.
  - cbn in Hk. apply andb_prop in Hk as [Hk1 Hk2].
    assert (Hm1 : tr = desktop -> media_trigger e = false).
    { intros E. specialize (Hm E). cbn in Hm.
      apply andb_prop in Hm as [Hm _]. unfold no_trigger in Hm.
      now destruct (media_trigger e). }
    assert (Hm2 : tr = desktop -> forallb no_trigger es = true).
    { intros E. specialize (Hm E). cbn in Hm.
      now apply andb_prop in Hm as [_ Hm]. }
    pose proof (now_step_le s e) as Hle.
    destruct (timer_log tr t0 s e Hs Hk1 Hm1) as (L1 & L2 & L3).
    destruct (IH (step s e) (timer_step _ _ _ _ Hs Hk1) Hk2 Hm2)
      as (I0 & I1 & I2 & I3).
    change (run s (e :: es)) with (run (step s e) es).
    split; [lra|]. split; [|split].
    + intros H. rewrite I1 by assumption. apply L1. lra.
    + intros H. rewrite I2 by lra. apply L2. assumption.
    + intros H1 H2.
      destruct (Qlt_le_dec (now (step s e)) (t0 + delay_of tr)) as [Hlt|Hge].
      * rewrite I3 by assumption. apply fired_logs_ext, L1, Hlt.
      * rewrite I2 by assumption. apply L3; assumption.
Qed.

Lemma latch_ok_step s s' : latch_step s s' -> latch_ok s -> latch_ok s'.
Proof.
  unfold latch_ok.
  intros [[A B]|[A [B [t C]]]] H.
  - rewrite A, B. exact H.
  - rewrite C, B. destruct (onCompleteCalls s) as [|u [|v l]];
      [reflexivity|congruence|contradiction].
Qed.

Lemma latch_ok_mount w t0 : latch_ok (mount w t0).
Proof. unfold mount. destruct (getDeviceTier w); reflexivity. Qed.

Lemma reachable_latch_ok s : Reachable s -> latch_ok s.
Proof.
  induction 1 as [w t0|s e Hr IH].
  - apply latch_ok_mount.
  - eapply latch_ok_step; [apply step_latch|exact IH].
Qed.

Lemma latch_ok_unlatched s :
  latch_ok s -> completedRef s = false -> onCompleteCalls s = [].
Proof.
  unfold latch_ok. destruct (onCompleteCalls s) as [|u [|v l]];
    [reflexivity|congruence|contradiction].
Qed.

Lemma fresh_timer tr s es :
  TimerShape tr (now s) s -> latch_ok s ->
  forallb (continues tr) es = true ->
  (tr = desktop -> forallb no_trigger es = true) ->
  timer_fires_exactly (delay_of tr) s es.
Proof.
  intros Hs Hl Hk Hm.
  destruct (run_log tr (now s) es s Hs Hk Hm) as (_ & L1 & _ & L3).
  pose proof (delay_of_pos tr) as Hd.
  pose proof (now_run_elapsed es s) as Hn.
  split; [exact Hn|]. split.
  - intros H. assert (H1 : now (run s es) < now s + delay_of tr)
      by (rewrite Hn; lra).
    specialize (L1 H1). unfold logs in L1.
    injection L1 as -> -> _. split; reflexivity.
  - intros H. assert (H0 : now s < now s + delay_of tr) by lra.
    assert (H1 : now s + delay_of tr <= now (run s es))
      by (rewrite Hn; lra).
    specialize (L3 H0 H1). unfold logs, fired_logs in L3.
    injection L3 as -> -> _. split; [reflexivity|].
    intros Hc. rewrite Hc. now rewrite (latch_ok_unlatched _ Hl Hc).
Qed.

Lemma branch_timer tr s0 es :
  Activated tr s0 -> forallb (continues tr) es = true ->
  (tr = desktop -> forallb no_trigger es = true) ->
  timer_fires_exactly (delay_of tr) s0 es.
Proof.
  intros Ha Hk Hm. apply fresh_timer; try assumption.
  - apply (activated_branch _ _ Ha).
  - apply reachable_latch_ok, (activated_reachable _ _ Ha).
Qed.



(** ** The animation inside a running branch *)

Lemma other_events_anim tr t0 s e :
  AnimShape tr t0 s -> continues tr e = true -> (forall ts, e <> Frame ts) ->
  rafs (step s e) = rafs s /\ progress (step s e) = progress s /\
  produced s e = [].
Proof.
  intros (Hm & Hl & Ht & _) Hk Hf.
  destruct e; try discriminate; try (now destruct (Hf ts)).
  - destruct (advance_anim_side dt s) as (A1 & _ & A3 & _).
    cbn [step]. auto.
  - apply continues_resize in Hk.
    rewrite resize_same_tier by congruence.
    destruct_state s. repeat split.
  - destruct_state s; red_hyps; subst. destruct tr, cpl; repeat split.
  - destruct_state s; red_hyps; subst. destruct tr; repeat split.
  - destruct_state s; red_hyps; subst. destruct tr, cpl; repeat split.
Qed.

Lemma anim_frame tr t0 s ts :
  AnimShape tr t0 s -> tr <> desktop ->
  (rafs s = [] /\ step s (Frame ts) = s /\ produced s (Frame ts) = [] /\
   progress s == 1)
  \/ (rafs s <> [] /\
      produced s (Frame ts) = [fraction tr t0 ts] /\
      progress (step s (Frame ts)) = fraction tr t0 ts /\
      (fraction tr t0 ts < 1 ->
       exists r, rafs (step s (Frame ts)) = [r] /\ rf_start r = t0 /\
                 rf_duration r = progressDuration tr) /\
      (1 <= fraction tr t0 ts -> rafs (step s (Frame ts)) = [])).
Proof.
  intros (Hm & Hl & Ht & Hp & Ha) Hd.
  destruct_state s; red_hyps; subst mnt lsn tie.
  destruct tr; try congruence;
    destruct Ha as ([o i] & -> & [->|(-> & Hp1)]); red_hyps.
  all: first
    [ left; repeat split; assumption
    | right; split; [discriminate|]; split; [reflexivity|];
      unfold fraction; red_model; rewrite Nat.eqb_refl;
      match goal with
      | |- context [Qle_bool 1 ?p] => destruct (Qle_bool 1 p) eqn:E; qbool
      end;
      (split; [reflexivity|]); split; intros;
      first [ reflexivity | exfalso; lra
            | eexists; repeat split; reflexivity ] ].
Qed.

(** The first frame request of a branch. *)
Lemma activated_rafs tr s0 :
  Activated tr s0 -> tr <> desktop ->
  exists r, rafs s0 = [r] /\ rf_start r = now s0 /\
            rf_duration r = progressDuration tr.
Proof.
  destruct 1 as [w t0 <-|s w Hr Hm Ht <-]; intros Hd.
  - unfold mount. destruct (getDeviceTier w); try congruence;
      eexists; repeat split.
  - destruct (reachable_running s Hr Hm) as (t0 & t1 & Hb).
    assert (Hw : getDeviceTier w <> tier s) by congruence.
    destruct (switch_state _ _ _ _ _ Hb Hw)
      as (_ & _ & _ & Hn & _ & _ & _ & _ & _ & _ & _ & Ha).
    destruct (getDeviceTier w); try congruence;
      destruct Ha as (_ & _ & Hrf); eexists;
      (split; [exact Hrf|]); (split; [symmetry; exact Hn|reflexivity]).
Qed.

Lemma fraction_bounds tr t0 t : t0 <= t -> 0 <= fraction tr t0 t <= 1.
Proof. intros H. apply frac_bounds; [apply progressDuration_pos|exact H]. Qed.

Lemma fraction_le_1 tr t0 t : fraction tr t0 t <= 1.
Proof. apply Q.le_min_r. Qed.

Lemma fraction_mono tr t0 a b :
  a <= b -> fraction tr t0 a <= fraction tr t0 b.
Proof. intros H. apply frac_mono; [apply progressDuration_pos|exact H]. Qed.

Lemma now_run_le es : forall s, now s <= now (run s es).
Proof.
  induction es as [|e es IH]; intros s; [apply Qle_refl|].
  change (run s (e :: es)) with (run (step s e) es).
  eapply Qle_trans; [apply now_step_le|apply IH].
Qed.

(** What the animation produces, whatever the stamps: values up to 1,
    the last of which is the [progress] state. *)
Lemma produced_run_last tr t0 es : forall s,
  AnimShape tr t0 s -> tr <> desktop -> forallb (continues tr) es = true ->
  Forall (fun p => p <= 1) (produced_run s es) /\
  progress (run s es) = last (produced_run s es) (progress s).
Proof.
  induction es as [|e es IH]; intros s Hs Hd Hk.
  - cbn. split; [constructor|reflexivity].
  - cbn in Hk. apply andb_prop in Hk as [Hk1 Hk2].
    destruct (IH _ (anim_step _ _ _ _ Hs Hk1) Hd Hk2) as (F & L).
    change (run s (e :: es)) with (run (step s e) es).
    cbn [produced_run].
    assert (Hq : (forall ts, e <> Frame ts) ->
                 produced s e = [] /\ progress (step s e) = progress s).
    { intros Hf. destruct (other_events_anim _ _ _ _ Hs Hk1 Hf)
        as (_ & A & B). auto. }
    destruct e; try (destruct Hq as [-> Hp]; [discriminate|];
                     cbn [app]; rewrite L, Hp; now split).
    clear Hq.
    destruct (anim_frame _ _ _ ts Hs Hd)
      as [(_ & E & -> & _)|(_ & -> & P & _)].
    + cbn [app]. rewrite L. rewrite E in *. now split.
    + cbn [app]. split.
      * constructor; [apply fraction_le_1|exact F].
      * rewrite L, P. symmetry. apply last_cons.
Qed.

(** With the frames stamped in order from [lo] on, the values produced
    are in order too, none below the fraction at [lo]. *)
Lemma produced_run_sorted tr t0 es : forall s lo,
  AnimShape tr t0 s -> tr <> desktop -> forallb (continues tr) es = true ->
  stamps_ok lo es = true ->
  Forall (fun p => fraction tr t0 lo <= p) (produced_run s es) /\
  StronglySorted Qle (produced_run s es).
Proof.
  induction es as [|e es IH]; intros s lo Hs Hd Hk Hst.
  - cbn. repeat constructor.
  - cbn in Hk. apply andb_prop in Hk as [Hk1 Hk2].
    pose proof (anim_step _ _ _ _ Hs Hk1) as Hs1.
    cbn [produced_run].
    assert (Hq : (forall ts, e <> Frame ts) -> produced s e = []).
    { intros Hf. apply (other_events_anim _ _ _ _ Hs Hk1 Hf). }
    destruct e;
      try (rewrite Hq by discriminate; cbn [app];
           apply (IH _ lo Hs1 Hd Hk2); exact Hst).
    clear Hq. cbn [stamps_ok] in Hst.
    apply andb_prop in Hst as [Hlo Hst]. apply Qle_bool_iff in Hlo.
    destruct (IH _ ts Hs1 Hd Hk2 Hst) as (F & S).
    assert (F' : Forall (fun p => fraction tr t0 lo <= p)
                   (produced_run (step s (Frame ts)) es)).
    { eapply Forall_impl; [|exact F]. cbn. intros p P1.
      eapply Qle_trans; [apply fraction_mono; exact Hlo|exact P1]. }
    destruct (anim_frame _ _ _ ts Hs Hd)
      as [(_ & E & -> & _)|(_ & -> & _)].
    + cbn [app]. split; assumption.
    + cbn [app]. split.
      * constructor; [apply fraction_mono; exact Hlo|exact F'].
      * constructor; assumption.
Qed.

Lemma sorted_app_le (l1 l2 : list Q) :
  StronglySorted Qle (l1 ++ l2) ->
  forall x y, In x l1 -> In y l2 -> x <= y.
Proof.
  induction l1 as [|a l1 IH]; intros Hs x y Hx Hy; [contradiction|].
  cbn in Hs. apply StronglySorted_inv in Hs as [Hs Ha].
  destruct Hx as [<-|Hx].
  - rewrite Forall_forall in Ha. apply Ha, in_or_app. now right.
  - apply IH; assumption.
Qed.

Lemma produced_run_app es1 : forall s es2,
  produced_run s (es1 ++ es2) =
  produced_run s es1 ++ produced_run (run s es1) es2.
Proof.
  induction es1 as [|e es1 IH]; intros s es2; [reflexivity|].
  cbn [app produced_run]. rewrite IH, app_assoc. reflexivity.
Qed.

Lemma run_app es1 es2 s : run s (es1 ++ es2) = run (run s es1) es2.
Proof. apply fold_left_app. Qed.

Lemma stamps_ok_app es1 : forall lo es2,
  stamps_ok lo (es1 ++ es2) = true -> stamps_ok lo es1 = true.
Proof.
  induction es1 as [|e es1 IH]; intros lo es2 H; [reflexivity|].
  destruct e; cbn [app stamps_ok] in *; try (eapply IH; exact H).
  apply andb_prop in H as [H1 H2]. rewrite H1. cbn. eapply IH; exact H2.
Qed.

Lemma anim_done_run tr t0 es : forall s,
  AnimShape tr t0 s -> tr <> desktop -> forallb (continues tr) es = true ->
  rafs s = [] -> rafs (run s es) = [] /\ progress (run s es) = progress s.
Proof.
  induction es as [|e es IH]; intros s Hs Hd Hk Hr; [now split|].
  cbn in Hk. apply andb_prop in Hk as [Hk1 Hk2].
  pose proof (anim_step _ _ _ _ Hs Hk1) as Hs1.
  change (run s (e :: es)) with (run (step s e) es).
  assert (H : rafs (step s e) = [] /\ progress (step s e) = progress s).
  { destruct e;
      try (destruct (other_events_anim _ _ _ _ Hs Hk1) as (A & B & _);
           [discriminate|]; split; congruence).
    destruct (anim_frame _ _ _ ts Hs Hd) as [(_ & E & _)|(N & _)];
      [|contradiction]. rewrite E. now split. }
  destruct H as [H1 H2]. destruct (IH _ Hs1 Hd Hk2 H1) as [I1 I2].
  split; congruence.
Qed.

(** ** Tier classification *)

(** C2. [getDeviceTier] is total and follows the two thresholds: a width
    below 768 is mobile (Compact), a width from 768 up to but not
    including 1024 is tablet (Medium), a width of 1024 or more is desktop
    (Large); every width falls in exactly one of the three ranges. *)
Theorem getDeviceTier_thresholds (w : Z) :
  ((w < 768)%Z -> getDeviceTier w = mobile) /\
  ((768 <= w < 1024)%Z -> getDeviceTier w = tablet) /\
  ((1024 <= w)%Z -> getDeviceTier w = desktop) /\
  (getDeviceTier w = mobile -> (w < 768)%Z) /\
  (getDeviceTier w = tablet -> (768 <= w < 1024)%Z) /\
  (getDeviceTier w = desktop -> (1024 <= w)%Z).
Proof.
  unfold getDeviceTier.
  destruct (Z.ltb_spec w 768), (Z.ltb_spec w 1024);
    repeat split; intros; first [reflexivity | discriminate | lia].
Qed.

Lemma getDeviceTier_thresholds_witness :
  getDeviceTier 767 = mobile /\ getDeviceTier 768 = tablet /\
  getDeviceTier 1023 = tablet /\ getDeviceTier 1024 = desktop /\
  getDeviceTier (-5) = mobile.
Proof.
  split; [apply (getDeviceTier_thresholds 767); lia|].
  split; [apply (getDeviceTier_thresholds 768); lia|].
  split; [apply (getDeviceTier_thresholds 1023); lia|].
  split; [apply (getDeviceTier_thresholds 1024); lia|].
  apply (getDeviceTier_thresholds (-5)); lia.
Defined.

(** ** The completion latch *)

Lemma latch_closed_run es : forall s,
  completedRef s = true ->
  completedRef (run s es) = true /\
  onCompleteCalls (run s es) = onCompleteCalls s.
Proof.
  induction es as [|e es IH]; intros s Hc; [now split|].
  change (run s (e :: es)) with (run (step s e) es).
  destruct (step_latch s e) as [[A B]|[A _]]; [|congruence].
  destruct (IH (step s e)) as [I1 I2]; [congruence|].
  split; congruence.
Qed.

(** C1. The first call of [handleEnd] closes the latch and calls the
    host's [onComplete]; a call with the latch closed changes nothing but
    the instrumentation; no event of any kind re-opens the latch or adds a
    call once it is closed; and in every state of every session the host
    has been called at most once, exactly when the latch is closed. *)
Theorem at_most_once_completion :
  (forall s, completedRef s = false ->
     completedRef (handleEnd s) = true /\
     onCompleteCalls (handleEnd s) = now s :: onCompleteCalls s) /\
  (forall s, completedRef s = true ->
     handleEnd s = set_handleEndCalls (now s :: handleEndCalls s) s) /\
  (forall s es, completedRef s = true ->
     completedRef (run s es) = true /\
     onCompleteCalls (run s es) = onCompleteCalls s) /\
  (forall w t0 es,
     (List.length (onCompleteCalls (run (mount w t0) es)) <= 1)%nat /\
     (completedRef (run (mount w t0) es) = true <->
      List.length (onCompleteCalls (run (mount w t0) es)) = 1%nat)).
Proof.
  split; [|split; [|split]].
  - intros s Hc. destruct_state s. cbn in Hc. subst cpl. now split.
  - intros s Hc. destruct_state s. cbn in Hc. subst cpl. reflexivity.
  - intros s es. apply latch_closed_run.
  - intros w t0 es.
    pose proof (reachable_latch_ok _ (reachable_run _ es (reach_mount w t0)))
      as H.
    unfold latch_ok in H.
    destruct (onCompleteCalls (run (mount w t0) es)) as [|u [|v l]];
      cbn; [| |contradiction].
    + split; [lia|]. rewrite H. split; discriminate.
    + split; [lia|]. rewrite H. split; reflexivity.
Qed.

Lemma at_most_once_completion_witness :
  let s := run (mount 1200 0)
             [Advance 3000; MediaEnded; MediaError; Advance 5000; Resize 500;
              Advance 2000] in
  (List.length (onCompleteCalls s) <= 1)%nat /\
  (completedRef s = true <-> List.length (onCompleteCalls s) = 1%nat).
Proof.
  exact (proj2 (proj2 (proj2 at_most_once_completion)) 1200%Z 0 _).
Defined.

(** ** Media error *)

(** C5. While the video is rendered, an error event does what an ended
    event does and writes one line to the console: it enters [handleEnd]
    at once, which with the latch open calls the host now; what the host
    and the screen see is the same after either event, and no timer or
    frame request is added (no retry). *)
Theorem media_error_equivalence (s : State) :
  videoRendered s = true ->
  step s MediaError =
    set_console ("Loading video failed"%string :: console s)
      (step s MediaEnded) /\
  console (step s MediaEnded) = console s /\
  handleEndCalls (step s MediaError) = now s :: handleEndCalls s /\
  (completedRef s = false ->
   onCompleteCalls (step s MediaError) = now s :: onCompleteCalls s) /\
  host_view (step s MediaError) = host_view (step s MediaEnded) /\
  timers (step s MediaError) = timers s /\
  rafs (step s MediaError) = rafs s.
Proof.
  intros Hv. destruct_state s. unfold videoRendered in Hv. cbn in Hv.
  destruct mnt, tie; try discriminate. destruct cpl; repeat split;
    intros; try reflexivity; discriminate.
Qed.

Lemma media_error_equivalence_witness :
  let s := run (mount 1200 0) [Advance 1500] in
  step s MediaError =
    set_console ("Loading video failed"%string :: console s)
      (step s MediaEnded) /\
  console (step s MediaEnded) = console s /\
  handleEndCalls (step s MediaError) = now s :: handleEndCalls s /\
  (completedRef s = false ->
   onCompleteCalls (step s MediaError) = now s :: onCompleteCalls s) /\
  host_view (step s MediaError) = host_view (step s MediaEnded) /\
  timers (step s MediaError) = timers s /\
  rafs (step s MediaError) = rafs s.
Proof.
  apply (media_error_equivalence (run (mount 1200 0) [Advance 1500])).
  reflexivity.
Defined.

(** ** Media readiness *)

Lemma videoReady_step s e :
  videoReady s = true -> videoReady (step s e) = true.
Proof.
  intros H. destruct e; cbn [step].
  - destruct (advance_anim_side dt s)
      as (_ & _ & _ & _ & _ & _ & _ & _ & _ & _ & -> & _). exact H.
  - destruct (frame_timer_side ts s)
      as (_ & _ & _ & _ & _ & _ & _ & _ & _ & _ & _ & -> & _). exact H.
  - unfold onResize. destruct (resizeListener _).
    + destruct (setTier_keeps (getDeviceTier (innerWidth (set_innerWidth w s)))
                  (set_innerWidth w s)) as (_ & _ & _ & _ & -> & _).
      destruct_state s; exact H.
    + destruct_state s; exact H.
  - destruct_state s. cbn in H. subst. destruct mnt, tie, cpl; reflexivity.
  - destruct_state s. cbn in H. subst. destruct mnt, tie; reflexivity.
  - destruct_state s. cbn in H. subst. destruct mnt, tie, cpl; reflexivity.
  - destruct_state s. cbn in H. subst.
    destruct mnt, mtm, ttm, dcp, anm; reflexivity.
  - destruct (setOnComplete_keeps s) as (_ & _ & _ & _ & -> & _). exact H.
Qed.

(** C10. [videoReady] starts false, the can-play-through event of the
    rendered video sets it, and nothing resets it: once it is true it is
    true after every further sequence of events, tier switches included,
    and the buffering indicator is not shown in any of those states. *)
Theorem videoReady_monotone :
  (forall w t0, videoReady (mount w t0) = false) /\
  (forall s, videoRendered s = true ->
     videoReady (step s MediaCanPlayThrough) = true) /\
  (forall s es, videoReady s = true ->
     videoReady (run s es) = true /\ bufferingShown (run s es) = false).
Proof.
  split; [|split].
  - intros w t0. unfold mount. destruct (getDeviceTier w); reflexivity.
  - intros s Hv. destruct_state s. unfold videoRendered in Hv. cbn in Hv.
    destruct mnt, tie; try discriminate. reflexivity.
  - intros s es. revert s.
    assert (Hrun : forall s, videoReady s = true ->
                             videoReady (run s es) = true).
    { induction es as [|e es IH]; intros s H; [exact H|].
      apply (IH (step s e)), videoReady_step, H. }
    intros s H. specialize (Hrun s H). split; [exact Hrun|].
    unfold bufferingShown. rewrite Hrun. apply andb_false_r.
Qed.

Lemma videoReady_monotone_witness :
  let s := step (mount 1200 0) MediaCanPlayThrough in
  let es := [Advance 100; Resize 500; Frame 100; Advance 100; Resize 1200;
             NewOnComplete; Advance 100] in
  videoReady (mount 1200 0) = false /\ videoReady s = true /\
  tier (run s es) = desktop /\
  videoReady (run s es) = true /\ bufferingShown (run s es) = false.
Proof.
  destruct videoReady_monotone as (A & B & C).
  split; [apply A|]. split; [apply B; reflexivity|].
  split; [reflexivity|]. apply C. apply B. reflexivity.
Defined.

(** ** Timers *)









(** ** Progress *)

Lemma frame_logs s ts : logs (step s (Frame ts)) = logs s.
Proof.
  destruct (frame_timer_side ts s)
    as (_ & _ & _ & _ & _ & _ & _ & _ & A & B & C & _).
  unfold logs. cbn [step]. now rewrite A, B, C.
Qed.

Lemma last_app_in (l1 l2 : list Q) : forall d,
  l2 <> [] -> In (last (l1 ++ l2) d) l2.
Proof.
  induction l1 as [|a l1 IH]; intros d Hl.
  - apply last_in, Hl.
  - cbn [app]. rewrite last_cons. apply IH, Hl.
Qed.

(** C6, as the code has it.  Take a run of the mobile or the tablet
    branch, cut anywhere in two.  The values the animation hands to
    [setProgress] never exceed 1; the [progress] state is the last of
    them, or, before the first frame of the run, the value the run started
    with (0 at mount), and never exceeds 1.  [tick] has no lower bound of
    its own.  When the frames of the run are stamped in order and none
    before the start of the branch, the values never decrease, in the
    order they are produced, and none is below 0; [progress] is then not
    below 0 if it was not at the start, and it never decreases from the
    first frame of the run on, or from the start when the run starts with
    [progress] at 0, as the run started by the mount does.  An animation
    frame, whatever fraction it sets, never enters [handleEnd] and leaves
    the latch and the host's calls as they were: in the run it is the
    branch timer alone that enters [handleEnd]. *)
Theorem progress_monotone_bounded (tr : DeviceTier) (s0 : State)
    (es1 es2 : list Event) :
  Activated tr s0 -> tr <> desktop ->
  forallb (continues tr) (es1 ++ es2) = true ->
  let s1 := run s0 es1 in
  let s2 := run s1 es2 in
  let ps := produced_run s0 (es1 ++ es2) in
  Forall (fun p => p <= 1) ps /\
  progress s2 = last ps (progress s0) /\
  progress s2 <= 1 /\
  (forall w t0, s0 = mount w t0 -> progress s0 = 0) /\
  (stamps_ok (now s0) (es1 ++ es2) = true ->
   StronglySorted Qle ps /\
   Forall (fun p => 0 <= p) ps /\
   (0 <= progress s0 -> 0 <= progress s2) /\
   (produced_run s0 es1 <> [] \/ progress s0 == 0 ->
    progress s1 <= progress s2) /\
   (forall w t0, s0 = mount w t0 -> progress s1 <= progress s2)) /\
  (forall s ts, logs (step s (Frame ts)) = logs s) /\
  timer_fires_exactly (delay_of tr) s0 (es1 ++ es2).
Proof.
  intros Ha Hd Hk. cbv zeta.
  assert (E2 : run (run s0 es1) es2 = run s0 (es1 ++ es2))
    by (symmetry; apply run_app).
  rewrite E2.
  pose proof Hk as Hk'. rewrite forallb_app in Hk'.
  apply andb_prop in Hk' as [Hk1 Hk2].
  pose proof (activated_branch _ _ Ha) as Hb.
  destruct (produced_run_last tr (now s0) _ s0 (proj2 Hb) Hd Hk) as (F & L).
  pose proof (branch_run _ _ _ _ Hb Hk) as [_ (_ & _ & _ & Hp & _)].
  split; [exact F|]. split; [exact L|]. split; [exact Hp|].
  split; [|split; [|split]].
  - intros w t0 ->. unfold mount. destruct (getDeviceTier w); reflexivity.
  - intros Hst.
    destruct (produced_run_sorted tr (now s0) _ s0 (now s0) (proj2 Hb) Hd
                Hk Hst) as (G & S).
    assert (G0 : Forall (fun p => 0 <= p) (produced_run s0 (es1 ++ es2))).
    { eapply Forall_impl; [|exact G]. cbn. intros p P1.
      eapply Qle_trans; [|exact P1]. apply fraction_bounds, Qle_refl. }
    assert (M : produced_run s0 es1 <> [] \/ progress s0 == 0 ->
                progress (run s0 es1) <= progress (run s0 (es1 ++ es2))).
    2: { split; [exact S|]. split; [exact G0|]. split; [|split].
         - intros H0. rewrite L.
           destruct (produced_run s0 (es1 ++ es2)) as [|q l] eqn:Eps;
             [exact H0|].
           rewrite Forall_forall in G0. apply G0, last_in. discriminate.
         - exact M.
         - intros w t0 E. apply M. right. rewrite E. unfold mount.
           destruct (getDeviceTier w); reflexivity. }
    { intros Hfirst.
      destruct (produced_run_last tr (now s0) _ s0 (proj2 Hb) Hd Hk1)
        as (_ & L1).
      rewrite L, L1. rewrite produced_run_app in *.
      destruct (produced_run (run s0 es1) es2) as [|q l] eqn:E.
      * rewrite app_nil_r. apply Qle_refl.
      * assert (Hin : In (last (produced_run s0 es1 ++ q :: l) (progress s0))
                        (q :: l)) by (apply last_app_in; discriminate).
        destruct (produced_run s0 es1) as [|q1 l1] eqn:E1.
        -- destruct Hfirst as [Hne|Hz]; [congruence|].
           assert (Hz' : progress s0 <= 0) by (rewrite Hz; apply Qle_refl).
           cbn [last app] in *.
           eapply Qle_trans; [exact Hz'|].
           rewrite Forall_forall in G0. apply G0. exact Hin.
        -- apply (sorted_app_le _ _ S); [|exact Hin].
           apply last_in. discriminate. }
  - intros s ts. apply frame_logs.
  - apply (branch_timer tr s0 _ Ha Hk). intros E. contradiction.
Qed.

Lemma progress_monotone_bounded_witness :
  let s0 := mount 500 0 in
  let es1 := [Advance 450; Frame 450; Advance 450] in
  let es2 := [Frame 900; Advance 900; Frame 1800; Frame 1800; Advance 200] in
  StronglySorted Qle (produced_run s0 (es1 ++ es2)) /\
  Forall (fun p => 0 <= p) (produced_run s0 (es1 ++ es2)) /\
  Forall (fun p => p <= 1) (produced_run s0 (es1 ++ es2)) /\
  0 <= progress (run (run s0 es1) es2) /\
  progress (run s0 es1) <= progress (run (run s0 es1) es2).
Proof.
  destruct (progress_monotone_bounded mobile (mount 500 0)
              [Advance 450; Frame 450; Advance 450]
              [Frame 900; Advance 900; Frame 1800; Frame 1800; Advance 200])
    as (F & _ & _ & _ & H & _).
  - apply act_mount. reflexivity.
  - discriminate.
  - reflexivity.
  - destruct (H eq_refl) as (S & G & P0 & _ & M).
    split; [exact S|]. split; [exact G|]. split; [exact F|].
    split; [apply P0; discriminate|].
    apply (M 500%Z 0). reflexivity.
Defined.

(** C6 as stated fails twice.  [tick] has no lower bound: the mobile
    branch is started when the clock reads 100, and a frame stamped 91
    sets [progress] to -1/200.  And a run started by a tier switch starts
    with the value of the run before: the mobile branch has set the bar to
    one half when a resize starts the tablet branch; 110 ms later the first
    frame of the tablet run, stamped with the clock, sets the bar to one
    twentieth. *)
Lemma progress_monotone_bounded_counterexample :
  let s0 := mount 500 100 in
  let s1 := step (run (mount 500 0) [Advance 900; Frame 900]) (Resize 900) in
  let es := [Advance 110; Frame 1010] in
  Activated mobile s0 /\ now s0 == 100 /\
  progress (run s0 [Frame 91]) == - (1 # 200) /\
  ~ 0 <= progress (run s0 [Frame 91]) /\
  Activated tablet s1 /\ forallb (continues tablet) es = true /\
  stamps_ok (now s1) es = true /\
  tier (run s1 es) = tablet /\
  progress s1 == 1 # 2 /\ progress (run s1 es) == 1 # 20 /\
  ~ progress s1 <= progress (run s1 es).
Proof.
  cbv zeta.
  split; [apply act_mount; reflexivity|]. split; [reflexivity|].
  split; [reflexivity|].
  split; [intros H; vm_compute in H; apply H; reflexivity|].
  split; [apply act_switch;
          [apply reachable_run; constructor|reflexivity|discriminate
          |reflexivity]|].
  split; [reflexivity|]. split; [reflexivity|]. split; [reflexivity|].
  split; [reflexivity|]. split; [reflexivity|].
  intros H. vm_compute in H. apply H. reflexivity.
Qed.

(** C7. When the mobile or the tablet branch starts, one frame callback is
    requested.  In every state of the run in which a callback is pending,
    a frame sets [progress] to the minimum of 1 and the time from the
    start of the branch to the frame's timestamp divided by the duration,
    1800 ms for mobile and 2200 ms for tablet; it requests another frame
    when that value is below 1 and none when it has reached 1.  Once no
    callback is pending, [progress] equals 1 and for the rest of the run
    no callback is requested and [progress] does not change. *)
Theorem progress_formula (tr : DeviceTier) (s0 : State) (es : list Event)
    (ts : Q) :
  Activated tr s0 -> tr <> desktop ->
  forallb (continues tr) es = true ->
  let s := run s0 es in
  let p := Qmin ((ts - now s0) / progressDuration tr) 1 in
  progressDuration mobile = 1800 /\ progressDuration tablet = 2200 /\
  (exists r, rafs s0 = [r] /\ rf_start r = now s0 /\
             rf_duration r = progressDuration tr) /\
  (rafs s <> [] ->
   produced s (Frame ts) = [p] /\ progress (step s (Frame ts)) = p /\
   (p < 1 -> exists r, rafs (step s (Frame ts)) = [r] /\
                       rf_start r = now s0 /\
                       rf_duration r = progressDuration tr) /\
   (1 <= p -> rafs (step s (Frame ts)) = [])) /\
  (rafs s = [] ->
   progress s == 1 /\
   forall es', forallb (continues tr) es' = true ->
     rafs (run s es') = [] /\ progress (run s es') = progress s).
Proof.
  intros Ha Hd Hk s p.
  pose proof (activated_branch _ _ Ha) as Hb.
  pose proof (branch_run _ _ _ _ Hb Hk) as Hbs. fold s in Hbs.
  split; [reflexivity|]. split; [reflexivity|]. split; [|split].
  - apply activated_rafs; assumption.
  - intros Hr.
    destruct (anim_frame _ _ _ ts (proj2 Hbs) Hd)
      as [(E & _)|(_ & P1 & P2 & P3 & P4)]; [contradiction|].
    repeat split; assumption.
  - intros Hr.
    destruct (anim_frame _ _ _ ts (proj2 Hbs) Hd)
      as [(_ & _ & _ & E)|(N & _)]; [|contradiction].
    split; [exact E|]. intros es' Hk'.
    apply (anim_done_run tr (now s0)); try assumption. exact (proj2 Hbs).
Qed.

Lemma progress_formula_witness :
  let s0 := mount 900 0 in
  let s := run s0 [Advance 1100; Frame 1100; Resize 1000] in
  let ts := now s in
  let p := Qmin ((ts - now s0) / progressDuration tablet) 1 in
  progressDuration mobile = 1800 /\ progressDuration tablet = 2200 /\
  (exists r, rafs s0 = [r] /\ rf_start r = now s0 /\
             rf_duration r = progressDuration tablet) /\
  (rafs s <> [] ->
   produced s (Frame ts) = [p] /\ progress (step s (Frame ts)) = p /\
   (p < 1 -> exists r, rafs (step s (Frame ts)) = [r] /\
                       rf_start r = now s0 /\
                       rf_duration r = progressDuration tablet) /\
   (1 <= p -> rafs (step s (Frame ts)) = [])) /\
  (rafs s = [] ->
   progress s == 1 /\
   forall es', forallb (continues tablet) es' = true ->
     rafs (run s es') = [] /\ progress (run s es') = progress s).
Proof.
  apply (progress_formula tablet (mount 900 0)
           [Advance 1100; Frame 1100; Resize 1000]).
  - apply act_mount. reflexivity.
  - discriminate.
  - reflexivity.
Defined.

(** ** Tier change *)

(** C8, as the code has it.  A resize whose width classifies to the tier
    already active changes nothing but the recorded width.  A resize whose
    width classifies to another tier makes that tier the active one,
    clears the pending timer and the pending frame request of the old
    branch, and starts the new branch at the time of the resize: one new
    timer due after the new tier's delay and, for mobile and tablet, one
    new frame request whose animation starts now (none for desktop).
    The video is rendered after the resize exactly when the new tier is
    desktop.  [progress] is not reset by the resize: it keeps its value
    until the next animation frame, which sets it to the fraction of the
    new duration that lies between the resize and the frame's timestamp. *)
Theorem tier_change_restart (s : State) (w : Z) :
  Reachable s -> mounted s = true ->
  let tr' := getDeviceTier w in
  let s' := step s (Resize w) in
  (tr' = tier s -> s' = set_innerWidth w s) /\
  (tr' <> tier s ->
   tier s' = tr' /\
   Forall (fun t => (tm_id t < nextId s)%nat) (timers s) /\
   timers s' = [{| tm_id := nextId s; tm_due := now s + delay_of tr' |}] /\
   slots s' = slots_for tr' (nextId s) /\
   (tr' = desktop -> rafs s' = [] /\ anim s' = None) /\
   (tr' <> desktop ->
    exists r, rafs s' = [r] /\ rf_start r = now s /\
              rf_duration r = progressDuration tr' /\
              anim s' = Some {| an_owner := rf_owner r; an_raf := rf_id r |}) /\
   videoRendered s' = tier_eqb tr' desktop /\
   progress s' = progress s /\
   (tr' <> desktop -> forall dt ts,
      progress (step (step s' (Advance dt)) (Frame ts))
      == Qmin ((ts - now s) / progressDuration tr') 1)).
Proof.
  intros Hr Hm tr' s'. split.
  - intros E. apply resize_same_tier; assumption.
  - intros Hne.
    destruct (reachable_running s Hr Hm) as (t0 & t1 & Hb).
    pose proof (switch_state _ _ _ _ _ Hb Hne) as Hsw.
    pose proof (switch_branch _ _ _ _ _ Hb Hne) as Hb'.
    fold s' tr' in Hsw, Hb'.
    destruct Hsw as (Hm' & _ & Ht & Hn & _ & Hp & _ & _ & _ & Htm & Hsl & Ha).
    split; [exact Ht|]. split.
    { destruct Hb as [(_ & _ & _ & id & _ & Hfr & [[-> _]|[-> _]]) _];
        repeat constructor. exact Hfr. }
    split; [exact Htm|]. split; [exact Hsl|].
    split; [|split; [|split; [|split]]].
    + intros E. rewrite E in Ha. destruct Ha as (_ & A & B). now split.
    + intros Hd. destruct tr'; try congruence;
        destruct Ha as (_ & A & B); eexists; (split; [exact B|]);
        repeat split; exact A.
    + unfold videoRendered. now rewrite Hm', Ht.
    + exact Hp.
    + intros Hd dt ts.
      assert (Hk : continues tr' (Advance dt) = true) by reflexivity.
      pose proof (anim_step _ _ _ _ (proj2 Hb') Hk) as Hs1.
      destruct (other_events_anim _ _ _ _ (proj2 Hb') Hk) as (R & _);
        [discriminate|].
      destruct (anim_frame _ _ _ ts Hs1 Hd)
        as [(E & _)|(_ & _ & P & _)].
      * exfalso. rewrite R in E. destruct tr'; try congruence;
          destruct Ha as (_ & _ & B); congruence.
      * rewrite P. unfold fraction. reflexivity.
Qed.

Lemma tier_change_restart_witness :
  let s := run (mount 500 0) [Advance 900; Frame 900] in
  let w := 900%Z in
  let tr' := getDeviceTier w in
  let s' := step s (Resize w) in
  (tr' = tier s -> s' = set_innerWidth w s) /\
  (tr' <> tier s ->
   tier s' = tr' /\
   Forall (fun t => (tm_id t < nextId s)%nat) (timers s) /\
   timers s' = [{| tm_id := nextId s; tm_due := now s + delay_of tr' |}] /\
   slots s' = slots_for tr' (nextId s) /\
   (tr' = desktop -> rafs s' = [] /\ anim s' = None) /\
   (tr' <> desktop ->
    exists r, rafs s' = [r] /\ rf_start r = now s /\
              rf_duration r = progressDuration tr' /\
              anim s' = Some {| an_owner := rf_owner r; an_raf := rf_id r |}) /\
   videoRendered s' = tier_eqb tr' desktop /\
   progress s' = progress s /\
   (tr' <> desktop -> forall dt ts,
      progress (step (step s' (Advance dt)) (Frame ts))
      == Qmin ((ts - now s) / progressDuration tr') 1)).
Proof.
  apply (tier_change_restart (run (mount 500 0) [Advance 900; Frame 900]) 900).
  - apply reachable_run. constructor.
  - reflexivity.
Defined.

(** C8 as stated fails: the mobile branch has run for 900 ms and its bar
    stands at one half; the resize to width 900 starts the tablet branch
    and the bar still stands at one half. *)
Lemma tier_change_restart_counterexample :
  let s := run (mount 500 0) [Advance 900; Frame 900] in
  let s' := step s (Resize 900) in
  Reachable s /\ mounted s = true /\
  tier s = mobile /\ getDeviceTier 900 = tablet /\ tier s' = tablet /\
  progress s' == 1 # 2 /\ ~ progress s' == 0.
Proof.
  cbv zeta. split; [apply reachable_run; constructor|].
  repeat split; try reflexivity.
  intros H. vm_compute in H. discriminate H.
Qed.

(** ** After unmount *)

Lemma dead_step s e : Dead s -> Dead (step s e) /\ held (step s e) = held s.
Proof.
  intros (Hm & Hl & Ht & Hr).
  destruct_state s. red_hyps. subst mnt lsn tms rfs.
  destruct e; unfold Dead, held, logs; red_model; cases; repeat split.
Qed.

Lemma dead_run es : forall s,
  Dead s -> Dead (run s es) /\ held (run s es) = held s.
Proof.
  induction es as [|e es IH]; intros s Hd; [now split|].
  change (run s (e :: es)) with (run (step s e) es).
  destruct (dead_step s e Hd) as [Hd1 H1].
  destruct (IH _ Hd1) as [Hd2 H2]. split; [exact Hd2|congruence].
Qed.

Lemma unmount_dead tr t0 t1 s :
  Running tr t0 t1 s ->
  Dead (step s Unmount) /\
  logs (step s Unmount) = logs s /\ tier (step s Unmount) = tier s /\
  progress (step s Unmount) = progress s /\
  videoReady (step s Unmount) = videoReady s /\
  console (step s Unmount) = console s /\
  now (step s Unmount) = now s.
Proof.
  intros [(Hm & Hl & Ht & id & Hid & Hfr & Htm) (_ & _ & _ & Hp & Ha)].
  destruct_state s; unfold slots in Hid; red_hyps; subst mnt lsn tie.
  destruct tr; injection Hid as -> -> ->;
    destruct Htm as [[-> Hlt]|[-> Hle]];
    try (destruct Ha as ([o i] & -> & [->|(-> & Hp1)]));
    try (destruct Ha as [-> ->]);
    unfold Dead, logs; red_model; rewrite ?Nat.eqb_refl; red_model;
    repeat split.
Qed.

Lemma reachable_dead s : Reachable s -> mounted s = false -> Dead s.
Proof.
  induction 1 as [w t0|s e Hr IH]; intros Hm.
  - exfalso. revert Hm. unfold mount.
    destruct (getDeviceTier w); discriminate.
  - destruct (mounted s) eqn:Hms.
    + destruct (reachable_running s Hr Hms) as (t0 & t1 & Hb).
      destruct (continues (tier s) e) eqn:Hk.
      * pose proof (timer_step _ _ _ _ (proj1 Hb) Hk) as (Hm' & _).
        congruence.
      * destruct e; try discriminate.
        -- cbn in Hk.
           assert (Hw : getDeviceTier w <> tier s)
             by (intros E; rewrite E, tier_eqb_refl in Hk; discriminate).
           pose proof (branch_mounted _ _ _ (switch_branch _ _ _ _ _ Hb Hw)).
           congruence.
        -- apply (unmount_dead _ _ _ _ Hb).
        -- destruct (callback_state _ _ _ _ Hb) as (((Hm' & _) & _) & _).
           congruence.
    + apply dead_step, IH. reflexivity.
Qed.

(** ** The tier follows the viewport *)

Lemma tier_setTier t s : mounted s = true -> tier (setTier t s) = t.
Proof.
  intros Hm. destruct_state s. cbn in Hm. subst mnt.
  destruct tie, t, mtm, ttm, dcp, anm; reflexivity.
Qed.

Lemma step_keeps_view s e :
  match e with Resize _ | Unmount => False | _ => True end ->
  tier (step s e) = tier s /\ innerWidth (step s e) = innerWidth s.
Proof.
  intros He. destruct e; try contradiction; cbn [step];
    try (destruct (setOnComplete_keeps s)
           as (_ & _ & _ & _ & _ & _ & _ & _ & _ & A & B & _); now split).
  - destruct (advance_anim_side dt s)
      as (_ & _ & _ & _ & _ & A & _ & _ & _ & _ & _ & _ & B). now split.
  - destruct (frame_timer_side ts s)
      as (_ & _ & _ & A & _ & _ & _ & _ & _ & _ & _ & _ & _ & B). now split.
  - destruct_state s. destruct mnt, tie, cpl; now split.
  - destruct_state s. destruct mnt, tie; now split.
  - destruct_state s. destruct mnt, tie, cpl; now split.
Qed.

Lemma tier_of_width s :
  Reachable s -> mounted s = true -> tier s = getDeviceTier (innerWidth s).
Proof.
  induction 1 as [w t0|s e Hr IH]; intros Hm.
  - unfold mount. destruct (getDeviceTier w) eqn:E; cbn; now rewrite E.
  - destruct (mounted s) eqn:Hms;
      [|now rewrite (mounted_step s e Hms) in Hm].
    specialize (IH eq_refl).
    destruct e;
      try (match goal with
           | |- context [step s ?e] =>
               destruct (step_keeps_view s e I) as [-> ->]; exact IH
           end).
    + cbn [step]. 
      assert (Hl : resizeListener (set_innerWidth w s) = true).
      { destruct (reachable_running s Hr Hms) as (t0 & t1 & (_ & Hl & _) & _).
        destruct_state s. exact Hl. }
      rewrite Hl. unfold onResize.
      destruct (setTier_keeps (getDeviceTier (innerWidth (set_innerWidth w s)))
                  (set_innerWidth w s))
        as (_ & _ & _ & _ & _ & _ & _ & _ & _ & ->).
      rewrite tier_setTier by (destruct_state s; exact Hms). reflexivity.
    + exfalso. revert Hm. destruct_state s. cbn in Hms. subst mnt.
      cbn. destruct mtm, ttm, dcp, anm; discriminate.
Qed.

(** X1. While the component is mounted, the active tier is the
    classification of the current viewport width: at mount without any
    resize event, and after every event of the session. *)
Theorem tier_follows_viewport (s : State) :
  Reachable s -> mounted s = true -> tier s = getDeviceTier (innerWidth s).
Proof. apply tier_of_width. Qed.

Lemma tier_follows_viewport_witness :
  let s := run (mount 500 0) [Advance 300; Resize 1300; Frame 300; Resize 800] in
  tier s = getDeviceTier (innerWidth s).
Proof.
  apply (tier_follows_viewport
           (run (mount 500 0) [Advance 300; Resize 1300; Frame 300; Resize 800])).
  - apply reachable_run. constructor.
  - reflexivity.
Defined.

(** ** Pending work *)

(** X2. In every state of a session at most one timer and at most one
    frame request are pending; on desktop no frame request is; once the
    component is unmounted none of either is, and the resize listener is
    removed. *)
Theorem pending_work_bounded (s : State) :
  Reachable s ->
  (List.length (timers s) <= 1)%nat /\
  (List.length (rafs s) <= 1)%nat /\
  (tier s = desktop -> rafs s = []) /\
  (mounted s = false ->
   timers s = [] /\ rafs s = [] /\ resizeListener s = false).
Proof.
  intros Hr. destruct (mounted s) eqn:Hm.
  - destruct (reachable_running s Hr Hm)
      as (t0 & t1 & (_ & _ & _ & id & _ & _ & Htm) & (_ & _ & _ & _ & Ha)).
    split; [destruct Htm as [[-> _]|[-> _]]; cbn; lia|].
    split; [|split; [|discriminate]].
    + destruct (tier s); try (destruct Ha as [_ ->]; cbn; lia);
        destruct Ha as (env & _ & [->|(-> & _)]); cbn; lia.
    + intros E. rewrite E in Ha. apply Ha.
  - destruct (reachable_dead s Hr Hm) as (_ & Hl & -> & ->).
    cbn. repeat split; auto.
Qed.

Lemma pending_work_bounded_witness :
  let s := run (mount 900 0)
             [Advance 100; Frame 100; Resize 400; Frame 100; Resize 1300;
              Advance 50; Resize 900; Frame 150] in
  (List.length (timers s) <= 1)%nat /\
  (List.length (rafs s) <= 1)%nat /\
  (tier s = desktop -> rafs s = []) /\
  (mounted s = false ->
   timers s = [] /\ rafs s = [] /\ resizeListener s = false).
Proof.
  apply (pending_work_bounded
           (run (mount 900 0)
              [Advance 100; Frame 100; Resize 400; Frame 100; Resize 1300;
               Advance 50; Resize 900; Frame 150])).
  apply reachable_run. constructor.
Defined.

(** ** Unmount *)

(** X3. Unmounting clears the pending timer, the pending frame request
    and the resize listener, and from then on no event reaches the
    component: whatever happens afterwards, [handleEnd] is not entered,
    the host is not called, and tier, progress, readiness and console
    stay as they were.  A session unmounted before completion never
    completes. *)
Theorem unmount_is_final (s : State) (es : list Event) :
  Reachable s -> mounted s = true ->
  let u := step s Unmount in
  mounted u = false /\ resizeListener u = false /\
  timers u = [] /\ rafs u = [] /\
  logs (run u es) = logs s /\
  tier (run u es) = tier s /\
  progress (run u es) = progress s /\
  videoReady (run u es) = videoReady s /\
  console (run u es) = console s /\
  timers (run u es) = [] /\ rafs (run u es) = [].
Proof.
  intros Hr Hm u.
  destruct (reachable_running s Hr Hm) as (t0 & t1 & Hb).
  destruct (unmount_dead _ _ _ _ Hb) as (Hd & L & T & P & V & C & _).
  fold u in Hd, L, T, P, V, C.
  destruct (dead_run es u Hd) as [(_ & _ & Ht & Hrf) Hh].
  destruct Hd as (D1 & D2 & D3 & D4).
  unfold held in Hh. injection Hh; intros.
  repeat split; congruence.
Qed.

Lemma unmount_is_final_witness :
  let s := run (mount 500 0) [Advance 1500; Frame 1500] in
  let es := [Advance 1000; Frame 2500; Resize 1300; MediaEnded; MediaError;
             NewOnComplete; Advance 9000] in
  let u := step s Unmount in
  mounted u = false /\ resizeListener u = false /\
  timers u = [] /\ rafs u = [] /\
  logs (run u es) = logs s /\
  tier (run u es) = tier s /\
  progress (run u es) = progress s /\
  videoReady (run u es) = videoReady s /\
  console (run u es) = console s /\
  timers (run u es) = [] /\ rafs (run u es) = [].
Proof.
  apply (unmount_is_final (run (mount 500 0) [Advance 1500; Frame 1500])).
  - apply reachable_run. constructor.
  - reflexivity.
Defined.

(** ** Completion inside a branch *)

Lemma now_media_trigger s e :
  media_trigger e = true -> now (step s e) = now s.
Proof.
  intros He. destruct e; try discriminate;
    destruct_state s; destruct mnt, tie, cpl; reflexivity.
Qed.

Lemma timer_closes_latch tr t0 s e :
  TimerShape tr t0 s -> continues tr e = true ->
  now s < t0 + delay_of tr -> t0 + delay_of tr <= now (step s e) ->
  completedRef (step s e) = true.
Proof.
  intros Hs Hk Hlt Hge.
  destruct (media_trigger e) eqn:Hm.
  - rewrite (now_media_trigger s e Hm) in Hge. lra.
  - destruct (timer_log tr t0 s e Hs Hk (fun _ => Hm)) as (_ & _ & L).
    specialize (L Hlt Hge). unfold logs, fired_logs in L.
    injection L; intros; assumption.
Qed.

Lemma run_closes_latch tr t0 es : forall s,
  TimerShape tr t0 s -> forallb (continues tr) es = true ->
  now s < t0 + delay_of tr \/ completedRef s = true ->
  t0 + delay_of tr <= now (run s es) ->
  completedRef (run s es) = true.
Proof.
  induction es as [|e es IH]; intros s Hs Hk Hor Hge.
  - cbn in *. destruct Hor as [Hlt|Hc]; [lra|exact Hc].
  - cbn in Hk. apply andb_prop in Hk as [Hk1 Hk2].
    change (run s (e :: es)) with (run (step s e) es) in *.
    destruct Hor as [Hlt|Hc].
    + apply (IH _ (timer_step _ _ _ _ Hs Hk1) Hk2); [|exact Hge].
      destruct (Qlt_le_dec (now (step s e)) (t0 + delay_of tr)) as [H|H];
        [left; exact H|right].
      apply (timer_closes_latch tr t0); assumption.
    + apply latch_closed_run.
      destruct (step_latch s e) as [[A _]|[A _]]; congruence.
Qed.

(** X4. A branch that runs for its full delay completes: from the start
    of any branch, whatever events arrive that keep the tier, the mount
    and the callback the host passes (media events included), once the
    waits of the run add up to the tier's delay (2000, 2500 or 8000 ms)
    the latch is closed and the host has been called exactly once. *)
Theorem branch_completes (tr : DeviceTier) (s0 : State) (es : list Event) :
  Activated tr s0 -> forallb (continues tr) es = true ->
  delay_of tr <= elapsed es ->
  completedRef (run s0 es) = true /\
  List.length (onCompleteCalls (run s0 es)) = 1%nat.
Proof.
  intros Ha Hk Hel.
  assert (Hge : now s0 + delay_of tr <= now (run s0 es))
    by (rewrite now_run_elapsed; lra).
  pose proof (activated_branch _ _ Ha) as [Hs _].
  pose proof (delay_of_pos tr) as Hd.
  assert (Hc : completedRef (run s0 es) = true).
  { apply (run_closes_latch tr (now s0)); try assumption. left. lra. }
  split; [exact Hc|].
  pose proof (reachable_latch_ok _
                (reachable_run _ es (activated_reachable _ _ Ha))) as Hl.
  unfold latch_ok in Hl.
  destruct (onCompleteCalls (run s0 es)) as [|u [|v l]];
    [congruence|reflexivity|contradiction].
Qed.

Lemma branch_completes_witness :
  let s0 := mount 1200 0 in
  let es := [Advance 3000; MediaError; Advance 2000; MediaEnded;
             Advance 3000] in
  completedRef (run s0 es) = true /\
  List.length (onCompleteCalls (run s0 es)) = 1%nat.
Proof.
  apply (branch_completes desktop (mount 1200 0)
           [Advance 3000; MediaError; Advance 2000; MediaEnded;
            Advance 3000]).
  - apply act_mount. reflexivity.
  - reflexivity.
  - intros H. vm_compute in H. discriminate H.
Defined.

(** A tier switch before the deadline: the wait is discarded. *)
Lemma wait_then_switch tr s0 dt w :
  Activated tr s0 -> 0 <= dt -> dt < delay_of tr ->
  getDeviceTier w <> tr ->
  Activated (getDeviceTier w) (run s0 [Advance dt; Resize w]) /\
  logs (run s0 [Advance dt; Resize w]) = logs s0 /\
  now (run s0 [Advance dt; Resize w]) = now s0 + dt.
Proof.
  intros Ha H0 Hlt Hw.
  pose proof (activated_branch _ _ Ha) as Hb.
  assert (Hk : forallb (continues tr) [Advance dt] = true) by reflexivity.
  pose proof (branch_run _ _ _ _ Hb Hk) as Hb1.
  assert (Hn : now (run s0 [Advance dt]) = now s0 + dt)
    by (apply now_advance; exact H0).
  destruct (run_log tr (now s0) [Advance dt] s0 (proj1 Hb) Hk)
    as (_ & L1 & _).
  { intros _. reflexivity. }
  rewrite Hn in L1. specialize (L1 ltac:(lra)).
  change (run s0 [Advance dt; Resize w])
    with (step (run s0 [Advance dt]) (Resize w)).
  destruct (switch_state _ _ _ _ _ Hb1 Hw)
    as (_ & _ & _ & Hn' & _ & _ & Hlg & _).
  split; [|split; congruence].
  apply act_switch.
  - apply reachable_run, (activated_reachable _ _ Ha).
  - apply (branch_mounted _ _ _ Hb1).
  - rewrite (branch_tier _ _ _ Hb1). congruence.
  - reflexivity.
Qed.

(** X5. The session as a whole has no deadline.  Start the mobile branch
    and turn the device every second, to width 900
    and back to width 500: after [n] rounds, 2000 n ms later, [handleEnd]
    has not been entered and the host has not been called since, the
    latch is as it was, and the mobile branch has just been started
    again. *)
Theorem resizes_postpone_completion (n : nat) (s0 : State) :
  Activated mobile s0 ->
  Activated mobile (run s0 (stall n)) /\
  logs (run s0 (stall n)) = logs s0 /\
  now (run s0 (stall n)) == now s0 + 2000 * inject_Z (Z.of_nat n).
Proof.
  revert s0. induction n as [|n IH]; intros s0 Ha.
  - cbn [stall run fold_left]. split; [exact Ha|]. split; [reflexivity|].
    cbn. ring.
  - cbn [stall]. rewrite run_app.
    change [Advance 1000; Resize 900; Advance 1000; Resize 500]
      with ([Advance 1000; Resize 900] ++ [Advance 1000; Resize 500]).
    rewrite run_app.
    destruct (wait_then_switch mobile s0 1000 900 Ha)
      as (A1 & L1 & N1); [lra|reflexivity|discriminate|].
    change (getDeviceTier 900) with tablet in A1.
    destruct (wait_then_switch tablet _ 1000 500 A1)
      as (A2 & L2 & N2); [lra|reflexivity|discriminate|].
    change (getDeviceTier 500) with mobile in A2.
    destruct (IH _ A2) as (A3 & L3 & N3).
    split; [exact A3|]. split; [congruence|].
    rewrite N3, N2, N1. rewrite Nat2Z.inj_succ. unfold Z.succ.
    rewrite inject_Z_plus. ring.
Qed.

Lemma resizes_postpone_completion_witness :
  Activated mobile (run (mount 500 0) (stall 5)) /\
  logs (run (mount 500 0) (stall 5)) = logs (mount 500 0) /\
  now (run (mount 500 0) (stall 5))
  == now (mount 500 0) + 2000 * inject_Z (Z.of_nat 5).
Proof.
  apply (resizes_postpone_completion 5 (mount 500 0)).
  apply act_mount. reflexivity.
Defined.

(** ** Media events on desktop *)

Lemma continues_media tr e : media_trigger e = true -> continues tr e = true.
Proof. destruct e; try discriminate; reflexivity. Qed.

(** X6. On desktop the first ended or error event wins.  Start the
    desktop branch with the latch open and let less than 8000 ms pass
    without either event; the first of them then calls the host at once,
    at the time it arrives, and nothing later adds a call.  Completion
    does not cancel the cap timer: it stays pending until its deadline,
    8000 ms after the start of the branch, and is gone afterwards. *)
Theorem first_media_trigger_wins (s0 : State) (es1 : list Event) (e : Event)
    (es2 : list Event) :
  Activated desktop s0 -> completedRef s0 = false ->
  forallb (continues desktop) es1 = true -> forallb no_trigger es1 = true ->
  now (run s0 es1) < now s0 + 8000 ->
  media_trigger e = true ->
  forallb (continues desktop) es2 = true ->
  let s1 := run s0 es1 in
  let s2 := run (step s1 e) es2 in
  onCompleteCalls s1 = [] /\
  onCompleteCalls (step s1 e) = [now s1] /\
  onCompleteCalls s2 = [now s1] /\
  (now s2 < now s0 + 8000 ->
   exists id, timers s2 = [{| tm_id := id; tm_due := now s0 + 8000 |}]) /\
  (now s0 + 8000 <= now s2 -> timers s2 = []).
Proof.
  intros Ha Hc Hk1 Hn1 Hlt He Hk2 s1 s2.
  pose proof (activated_branch _ _ Ha) as Hb.
  pose proof (branch_run _ _ _ _ Hb Hk1) as Hb1. fold s1 in Hb1.
  pose proof (reachable_latch_ok _ (activated_reachable _ _ Ha)) as Hl.
  destruct (run_log desktop (now s0) es1 s0 (proj1 Hb) Hk1 (fun _ => Hn1))
    as (_ & L1 & _).
  fold s1 in L1. specialize (L1 Hlt). unfold logs in L1.
  injection L1 as _ Hoc Hcr.
  rewrite (latch_ok_unlatched _ Hl Hc) in Hoc. rewrite Hc in Hcr.
  assert (Hfire : completedRef (step s1 e) = true /\
                  onCompleteCalls (step s1 e) = [now s1]).
  { destruct Hb1 as [(Hm & _ & Ht & _) _].
    clear - Hm Ht Hoc Hcr He. destruct_state s1. red_hyps. subst.
    destruct e; try discriminate; now split. }
  destruct Hfire as [F1 F2].
  destruct (latch_closed_run es2 (step s1 e) F1) as [_ C2]. fold s2 in C2.
  pose proof (branch_step _ _ _ _ Hb1 (continues_media desktop e He)) as Hbe.
  pose proof (branch_run _ _ _ _ Hbe Hk2) as Hb2. fold s2 in Hb2.
  split; [exact Hoc|]. split; [exact F2|]. split; [congruence|].
  destruct Hb2 as [(_ & _ & _ & id & _ & _ & Htm) _].
  change (delay_of desktop) with 8000 in Htm.
  split; intros H; destruct Htm as [[E Hlt2]|[E Hge2]];
    first [ exists id; exact E | exact E | exfalso; lra ].
Qed.

Lemma first_media_trigger_wins_witness :
  let s0 := mount 1200 0 in
  let s1 := run s0 [Advance 3000; MediaCanPlayThrough] in
  let s2 := run (step s1 MediaEnded) [MediaError; Advance 6000] in
  onCompleteCalls s1 = [] /\
  onCompleteCalls (step s1 MediaEnded) = [now s1] /\
  onCompleteCalls s2 = [now s1] /\
  (now s2 < now s0 + 8000 ->
   exists id, timers s2 = [{| tm_id := id; tm_due := now s0 + 8000 |}]) /\
  (now s0 + 8000 <= now s2 -> timers s2 = []).
Proof.
  apply (first_media_trigger_wins (mount 1200 0)
           [Advance 3000; MediaCanPlayThrough] MediaEnded
           [MediaError; Advance 6000]).
  - apply act_mount. reflexivity.
  - reflexivity.
  - reflexivity.
  - reflexivity.
  - reflexivity.
  - reflexivity.
  - reflexivity.
Defined.

Lemma desktop_step_progress t0 s e :
  AnimShape desktop t0 s -> continues desktop e = true ->
  progress (step s e) = progress s /\ produced s e = [].
Proof.
  intros Hs Hk. destruct e; try discriminate;
    try (destruct (other_events_anim _ _ _ _ Hs Hk) as (_ & A & B);
         [discriminate|now split]).
  destruct Hs as (_ & _ & _ & _ & _ & Hr).
  destruct_state s. cbn in Hr. subst rfs. now split.
Qed.

(** X7. The desktop branch animates nothing: from its start, over any
    events that keep the tier and the mount, no frame callback is ever
    pending, [setProgress] is never called, and [progress] keeps the value
    it had when the branch started. *)
Theorem desktop_has_no_animation (s0 : State) (es : list Event) :
  Activated desktop s0 -> forallb (continues desktop) es = true ->
  rafs (run s0 es) = [] /\ anim (run s0 es) = None /\
  produced_run s0 es = [] /\
  progress (run s0 es) = progress s0.
Proof.
  intros Ha Hk.
  pose proof (activated_branch _ _ Ha) as [_ Hs].
  set (t0 := now s0) in Hs. clearbody t0. clear Ha.
  revert s0 Hs Hk. induction es as [|e es IH]; intros s0 Hs Hk.
  - destruct Hs as (_ & _ & _ & _ & A & B). now repeat split.
  - cbn in Hk. apply andb_prop in Hk as [Hk1 Hk2].
    change (run s0 (e :: es)) with (run (step s0 e) es).
    destruct (desktop_step_progress _ _ _ Hs Hk1) as [P1 P2].
    destruct (IH _ (anim_step _ _ _ _ Hs Hk1) Hk2) as (I1 & I2 & I3 & I4).
    cbn [produced_run]. rewrite P2, I3.
    repeat split; try assumption. congruence.
Qed.

Lemma desktop_has_no_animation_witness :
  let s0 := step (run (mount 500 0) [Advance 900; Frame 900]) (Resize 1300) in
  let es := [Frame 900; Advance 500; Frame 1400; MediaCanPlayThrough;
             Frame 1400] in
  rafs (run s0 es) = [] /\ anim (run s0 es) = None /\
  produced_run s0 es = [] /\
  progress (run s0 es) = progress s0.
Proof.
  apply (desktop_has_no_animation
           (step (run (mount 500 0) [Advance 900; Frame 900]) (Resize 1300))
           [Frame 900; Advance 500; Frame 1400; MediaCanPlayThrough;
            Frame 1400]).
  - apply act_switch;
      [apply reachable_run; constructor|reflexivity|discriminate|reflexivity].
  - reflexivity.
Defined.

(** ** What is on screen *)

Lemma reachable_progress_le s : Reachable s -> progress s <= 1.
Proof.
  induction 1 as [w t0|s e Hr IH].
  - unfold mount. destruct (getDeviceTier w); cbn; lra.
  - destruct (mounted (step s e)) eqn:Hm.
    + destruct (reachable_running _ (reach_step s e Hr) Hm)
        as (t0 & t1 & _ & (_ & _ & _ & Hp & _)). exact Hp.
    + destruct (mounted s) eqn:Hms.
      * destruct (reachable_running s Hr Hms) as (t0 & t1 & Hb).
        destruct (continues (tier s) e) eqn:Hk.
        -- pose proof (timer_step _ _ _ _ (proj1 Hb) Hk) as (Hm' & _).
           congruence.
        -- destruct e; try discriminate.
           ++ cbn in Hk.
              assert (Hw : getDeviceTier w <> tier s)
                by (intros E; rewrite E, tier_eqb_refl in Hk; discriminate).
              pose proof (branch_mounted _ _ _
                            (switch_branch _ _ _ _ _ Hb Hw)).
              congruence.
           ++ destruct (unmount_dead _ _ _ _ Hb) as (_ & _ & _ & -> & _).
              exact IH.
           ++ destruct (callback_state _ _ _ _ Hb) as (((Hm' & _) & _) & _).
              congruence.
      * destruct (dead_step s e (reachable_dead s Hr Hms)) as [_ Hh].
        unfold held in Hh. injection Hh; intros. congruence.
Qed.

Lemma getDeviceTier_cases w :
  (getDeviceTier w = mobile <-> (w < 768)%Z) /\
  (getDeviceTier w = tablet <-> (768 <= w < 1024)%Z) /\
  (getDeviceTier w = desktop <-> (1024 <= w)%Z).
Proof.
  unfold getDeviceTier.
  destruct (Z.ltb_spec w 768); [|destruct (Z.ltb_spec w 1024)];
    repeat split; intros; first [lia | reflexivity | discriminate].
Qed.

(** X8. What is rendered, in every state of a session.  An unmounted
    component renders nothing.  A mounted one renders exactly one of the
    mobile block, the tablet block and the video, the one of the current
    viewport width (below 768, from 768 and below 1024, from 1024); the
    progress bar of the block has the width 100 times [progress] percent,
    and that is never more than 100 percent; the buffering indicator is
    rendered only together with the video, and not once [videoReady] is
    set. *)
Theorem render_one_layout (s : State) :
  Reachable s ->
  (mounted s = false -> render s = None) /\
  (mounted s = true ->
   exists v, render s = Some v /\
     (mobileBar v <> None /\ tabletBar v = None /\ video v = false \/
      mobileBar v = None /\ tabletBar v <> None /\ video v = false \/
      mobileBar v = None /\ tabletBar v = None /\ video v = true) /\
     (mobileBar v <> None <-> (innerWidth s < 768)%Z) /\
     (tabletBar v <> None <-> (768 <= innerWidth s < 1024)%Z) /\
     (video v = true <-> (1024 <= innerWidth s)%Z) /\
     (forall p, mobileBar v = Some p \/ tabletBar v = Some p ->
                p = progress s * 100 /\ p <= 100) /\
     (bufferingIndicator v = true ->
      video v = true /\ videoReady s = false)).
Proof.
  intros Hr. split; [intros Hm; unfold render; now rewrite Hm|].
  intros Hm. pose proof (reachable_progress_le s Hr) as Hp.
  pose proof (tier_of_width s Hr Hm) as Ht.
  destruct (getDeviceTier_cases (innerWidth s)) as (W1 & W2 & W3).
  rewrite <- Ht in W1, W2, W3.
  unfold render. rewrite Hm. eexists. split; [reflexivity|].
  cbn [mobileBar tabletBar video bufferingIndicator].
  destruct (tier s); cbn [tier_eqb andb].
  - split; [left; repeat split; discriminate|].
    split; [split; [intros _; now apply W1|discriminate]|].
    split; [split; [congruence|intros H; now apply W2 in H]|].
    split; [split; [discriminate|intros H; now apply W3 in H]|].
    split; [|discriminate].
    intros p [E|E]; [|discriminate]. injection E as <-.
    split; [reflexivity|lra].
  - split; [right; left; repeat split; discriminate|].
    split; [split; [congruence|intros H; now apply W1 in H]|].
    split; [split; [intros _; now apply W2|discriminate]|].
    split; [split; [discriminate|intros H; now apply W3 in H]|].
    split; [|discriminate].
    intros p [E|E]; [discriminate|]. injection E as <-.
    split; [reflexivity|lra].
  - split; [right; right; repeat split|].
    split; [split; [congruence|intros H; now apply W1 in H]|].
    split; [split; [congruence|intros H; now apply W2 in H]|].
    split; [split; [intros _; now apply W3|reflexivity]|].
    split; [intros p [E|E]; discriminate|].
    intros E. split; [reflexivity|].
    destruct (videoReady s); [discriminate|reflexivity].
Qed.

Lemma render_one_layout_witness :
  let s := run (mount 900 0) [Advance 550; Frame 550] in
  (mounted s = false -> render s = None) /\
  (mounted s = true ->
   exists v, render s = Some v /\
     (mobileBar v <> None /\ tabletBar v = None /\ video v = false \/
      mobileBar v = None /\ tabletBar v <> None /\ video v = false \/
      mobileBar v = None /\ tabletBar v = None /\ video v = true) /\
     (mobileBar v <> None <-> (innerWidth s < 768)%Z) /\
     (tabletBar v <> None <-> (768 <= innerWidth s < 1024)%Z) /\
     (video v = true <-> (1024 <= innerWidth s)%Z) /\
     (forall p, mobileBar v = Some p \/ tabletBar v = Some p ->
                p = progress s * 100 /\ p <= 100) /\
     (bufferingIndicator v = true ->
      video v = true /\ videoReady s = false)).
Proof.
  apply (render_one_layout (run (mount 900 0) [Advance 550; Frame 550])).
  apply reachable_run. constructor.
Defined.

(** ** The bar and the timer *)

Lemma fraction_full tr t0 t :
  t0 + progressDuration tr <= t -> fraction tr t0 t == 1 /\ 1 <= fraction tr t0 t.
Proof.
  intros H. pose proof (progressDuration_pos tr) as Hd.
  assert (H1 : 1 <= (t - t0) / progressDuration tr)
    by (apply Qle_shift_div_l; [exact Hd|lra]).
  unfold fraction. split.
  - apply Q.min_r. exact H1.
  - apply Q.min_glb; [exact H1|apply Qle_refl].
Qed.

(** X9. The bar is over before the screen is dismissed.  The animation
    lasts less than the branch timer (1800 against 2000 ms on mobile, 2200
    against 2500 ms on tablet), and in a run of either branch every frame
    stamped once the animation's duration has passed leaves [progress]
    at 1 with no further frame requested; so does every frame stamped from
    the timer's deadline on. *)
Theorem bar_full_before_dismissal (tr : DeviceTier) (s0 : State)
    (es : list Event) (ts : Q) :
  Activated tr s0 -> tr <> desktop ->
  forallb (continues tr) es = true ->
  now s0 + progressDuration tr <= ts ->
  progressDuration tr < delay_of tr /\
  progress (step (run s0 es) (Frame ts)) == 1 /\
  rafs (step (run s0 es) (Frame ts)) = [].
Proof.
  intros Ha Hd Hk Hge.
  split; [destruct tr; try congruence; reflexivity|].
  pose proof (activated_branch _ _ Ha) as Hb.
  pose proof (branch_run _ _ _ _ Hb Hk) as [_ Hs].
  destruct (fraction_full tr (now s0) _ Hge) as [F1 F2].
  destruct (anim_frame _ _ _ ts Hs Hd)
    as [(R & E & _ & P)|(_ & _ & P & _ & R)].
  - rewrite E. split; assumption.
  - rewrite P. split; [exact F1|apply R, F2].
Qed.

Lemma bar_full_before_dismissal_witness :
  let s0 := mount 500 0 in
  let es := [Advance 900; Frame 900; Advance 950] in
  progressDuration mobile < delay_of mobile /\
  progress (step (run s0 es) (Frame 1850)) == 1 /\
  rafs (step (run s0 es) (Frame 1850)) = [].
Proof.
  apply (bar_full_before_dismissal mobile (mount 500 0)
           [Advance 900; Frame 900; Advance 950] 1850).
  - apply act_mount. reflexivity.
  - discriminate.
  - reflexivity.
  - intros H. vm_compute in H. discriminate H.
Defined.

(** ** The console *)

Lemma console_step s e :
  console (step s e) = console s \/
  is_error e = true /\
  console (step s e) = "Loading video failed"%string :: console s.
Proof.
  destruct e; cbn [step].
  - destruct (advance_anim_side dt s)
      as (_ & _ & _ & _ & _ & _ & _ & _ & _ & _ & _ & A & _). now left.
  - destruct (frame_timer_side ts s)
      as (_ & _ & _ & _ & _ & _ & _ & _ & _ & _ & _ & _ & A & _). now left.
  - left. unfold onResize. destruct (resizeListener _).
    + destruct (setTier_keeps (getDeviceTier (innerWidth (set_innerWidth w s)))
                  (set_innerWidth w s))
        as (_ & _ & _ & _ & _ & _ & -> & _).
      now destruct_state s.
    + now destruct_state s.
  - left. destruct_state s. destruct mnt, tie, cpl; reflexivity.
  - left. destruct_state s. destruct mnt, tie; reflexivity.
  - destruct_state s. destruct mnt, tie, cpl;
      first [now left | right; now split].
  - left. destruct_state s. destruct mnt, mtm, ttm, dcp, anm; reflexivity.
  - left. destruct (setOnComplete_keeps s)
      as (_ & _ & _ & _ & _ & _ & A & _). exact A.
Qed.

Lemma console_run es : forall s,
  exists k, (k <= List.length (filter is_error es))%nat /\
    console (run s es) =
    repeat "Loading video failed"%string k ++ console s.
Proof.
  induction es as [|e es IH]; intros s.
  - exists O. split; [cbn; lia|reflexivity].
  - change (run s (e :: es)) with (run (step s e) es).
    destruct (IH (step s e)) as (k & Hk & Hc).
    destruct (console_step s e) as [E|[He E]].
    + exists k. split; [cbn; destruct (is_error e); cbn; lia|].
      now rewrite Hc, E.
    + exists (S k). split; [cbn; rewrite He; cbn; lia|].
      rewrite Hc, E. replace (S k) with (k + 1)%nat by lia.
      rewrite repeat_app, <- app_assoc. reflexivity.
Qed.

(** X10. The console holds nothing but the video error message: in every
    session it is that one line repeated, at most once per error event
    delivered, and empty when no error event was. *)
Theorem console_only_video_errors (w : Z) (t0 : Q) (es : list Event) :
  exists k, (k <= List.length (filter is_error es))%nat /\
    console (run (mount w t0) es) = repeat "Loading video failed"%string k.
Proof.
  destruct (console_run es (mount w t0)) as (k & Hk & Hc).
  exists k. split; [exact Hk|].
  rewrite Hc. replace (console (mount w t0)) with (@nil string).
  - apply app_nil_r.
  - unfold mount. destruct (getDeviceTier w); reflexivity.
Qed.

(** ** A new callback *)

(** X11. When the host passes a new [onComplete] to the mounted
    component, the pending timer of the branch is replaced by a fresh one,
    due the tier's delay after the change, and nothing else moves: the
    animation keeps its frame request and its start, [progress], the tier
    and [videoReady] keep their values, what is rendered stays the same,
    [handleEnd] is not entered and the latch and the host's calls are as
    they were. *)
Theorem new_callback_restarts_timer_only (s : State) :
  Reachable s -> mounted s = true ->
  let s' := step s NewOnComplete in
  Forall (fun t => (tm_id t < nextId s)%nat) (timers s) /\
  timers s' = [{| tm_id := nextId s; tm_due := now s + delay_of (tier s) |}] /\
  rafs s' = rafs s /\ anim s' = anim s /\
  progress s' = progress s /\ tier s' = tier s /\
  videoReady s' = videoReady s /\ render s' = render s /\
  logs s' = logs s /\ now s' = now s.
Proof.
  intros Hr Hm s'.
  destruct (reachable_running s Hr Hm) as (t0 & t1 & Hb).
  destruct (callback_state _ _ _ _ Hb) as (_ & Hn & Hl & Ht).
  destruct (setOnComplete_keeps s)
    as (_ & _ & _ & _ & Hv & Hp & _ & Hm' & _ & _ & Hti & Hrf & Han).
  change (setOnComplete s) with s' in Hv, Hp, Hm', Hti, Hrf, Han.
  fold s' in Hn, Hl, Ht.
  split.
  { destruct Hb as [(_ & _ & _ & id & _ & Hfr & [[-> _]|[-> _]]) _];
      repeat constructor. exact Hfr. }
  repeat (split; [assumption|]).
  split; [|split; assumption].
  unfold render. now rewrite Hm', Hti, Hp, Hv.
Qed.

Lemma new_callback_restarts_timer_only_witness :
  let s := run (mount 500 0) [Advance 900; Frame 900] in
  let s' := step s NewOnComplete in
  Forall (fun t => (tm_id t < nextId s)%nat) (timers s) /\
  timers s' = [{| tm_id := nextId s; tm_due := now s + delay_of (tier s) |}] /\
  rafs s' = rafs s /\ anim s' = anim s /\
  progress s' = progress s /\ tier s' = tier s /\
  videoReady s' = videoReady s /\ render s' = render s /\
  logs s' = logs s /\ now s' = now s.
Proof.
  apply (new_callback_restarts_timer_only
           (run (mount 500 0) [Advance 900; Frame 900])).
  - apply reachable_run. constructor.
  - reflexivity.
Defined.
